(** * TransactionSyncStreamWorker: the wallet matcher and the worker lifecycle

    A shallow embedding of
    [src/plugins/Workers/TransactionSyncStreamWorker/TransactionSyncStreamWorker.js].

    - JavaScript objects live in a store of cells addressed by references;
      arrays are cells, so aliasing between arrays and between the objects
      they hold is visible.
    - Code that can throw, or that awaits a promise, runs in a small monad
      that threads a state and ends in a completion.
    - The worker is a record of the fields the class reads and writes. *)

From Stdlib Require Import NArith Lia.
From stdpp Require Import base option list gmap strings.

(** ** Completions and the state-and-exception monad *)

Inductive Error : Type :=
| TypeError
| Failure (reason : string).

(** How a piece of code ends: it returns, it throws, or (for an async
    function) it is parked on a promise that never settles. *)
Inductive Completion (A : Type) : Type :=
| Normal (a : A)
| Thrown (e : Error)
| Suspended.

Arguments Normal {A} a.
Arguments Thrown {A} e.
Arguments Suspended {A}.

Definition Exec (S A : Type) : Type := S -> Completion A * S.

Definition ret {S A : Type} (a : A) : Exec S A := fun s => (Normal a, s).

Definition throw {S A : Type} (e : Error) : Exec S A := fun s => (Thrown e, s).

Definition bind {S A B : Type} (m : Exec S A) (k : A -> Exec S B) : Exec S B :=
  fun s =>
    match m s with
    | (Normal a, s') => k a s'
    | (Thrown e, s') => (Thrown e, s')
    | (Suspended, s') => (Suspended, s')
    end.

Declare Scope exec_scope.
Delimit Scope exec_scope with exec.

Notation "'let*' x ':=' m 'in' k" := (bind m (fun x => k))
  (at level 10, x name, m at level 100, k at level 200) : exec_scope.
Notation "m ';;' k" := (bind m (fun _ => k))
  (at level 100, k at level 200, right associativity) : exec_scope.

Open Scope exec_scope.

Definition completion {S A : Type} (r : Completion A * S) : Completion A := fst r.
Definition final {S A : Type} (r : Completion A * S) : S := snd r.

(** ** The object store *)

Abbreviation loc := nat (only parsing).

(** What an array element or a property can hold here: a string or a
    reference to an object. *)
Inductive Value : Type :=
| VString (s : string)
| VRef (l : loc).

(** A dashcore [Script]; the worker only ever asks it for its address. *)
Inductive Script : Type :=
| ScriptHex (hex : string).

Inductive Obj : Type :=
| OInput (script : option Script)
| OOutput (script : option Script)
| OTransaction (inputs outputs : Value)
| OArray (items : list Value)
| OMatch (transactions spentOutputs unspentOutputs : Value).

Abbreviation Heap := (list Obj) (only parsing).

(** An input or an output as the matcher sees it: which object it is, and
    its script. *)
Abbreviation Scripted := (loc * option Script)%type (only parsing).

(** [SameValueZero], the comparison [Array.prototype.includes] uses. *)
Definition sameValueZero (x y : Value) : bool :=
  match x, y with
  | VString a, VString b => String.eqb a b
  | VRef a, VRef b => Nat.eqb a b
  | _, _ => false
  end.

(** [[]] and object literals: a new cell at the end of the store. *)
Definition alloc (o : Obj) : Exec Heap Value :=
  fun h => (Normal (VRef (length h)), h ++ [o]).

(** Reading the elements of an array.  A value that is not a reference to
    an array has no [forEach], [filter] or [includes]: calling one is a
    TypeError. *)
Definition items_of (v : Value) : Exec Heap (list Value) :=
  fun h =>
    match v with
    | VRef l =>
        match h !! l with
        | Some (OArray xs) => (Normal xs, h)
        | _ => (Thrown TypeError, h)
        end
    | VString _ => (Thrown TypeError, h)
    end.

(** [array.push(x)] *)
Definition push (array x : Value) : Exec Heap unit :=
  fun h =>
    match array with
    | VRef l =>
        match h !! l with
        | Some (OArray xs) => (Normal tt, <[l := OArray (xs ++ [x])]> h)
        | _ => (Thrown TypeError, h)
        end
    | VString _ => (Thrown TypeError, h)
    end.

(** [array.includes(x)] *)
Definition includes (array x : Value) : Exec Heap bool :=
  let* xs := items_of array in
  ret (existsb (sameValueZero x) xs).

(** [tx.inputs] and [tx.outputs], then a method call on the result: on
    anything but a transaction the property is undefined and the call is a
    TypeError. *)
Definition get_inputs (tx : Value) : Exec Heap Value :=
  fun h =>
    match tx with
    | VRef l =>
        match h !! l with
        | Some (OTransaction ins _) => (Normal ins, h)
        | _ => (Thrown TypeError, h)
        end
    | VString _ => (Thrown TypeError, h)
    end.

Definition get_outputs (tx : Value) : Exec Heap Value :=
  fun h =>
    match tx with
    | VRef l =>
        match h !! l with
        | Some (OTransaction _ outs) => (Normal outs, h)
        | _ => (Thrown TypeError, h)
        end
    | VString _ => (Thrown TypeError, h)
    end.

(** [x.script]: the script of an input or an output, [None] when the
    property is null or undefined (as for a coinbase input, and for every
    value that is neither an input nor an output). *)
Definition get_script (x : Value) : Exec Heap (option Script) :=
  fun h =>
    match x with
    | VRef l =>
        match h !! l with
        | Some (OInput s) | Some (OOutput s) => (Normal s, h)
        | _ => (Normal None, h)
        end
    | VString _ => (Normal None, h)
    end.

(** [xs.forEach(callback)], where the callback assigns to a local variable of
    the enclosing function: the variable is threaded through the calls. *)
Fixpoint forEach {S V : Type} (xs : list Value)
    (callback : Value -> V -> Exec S V) (v : V) : Exec S V :=
  match xs with
  | [] => ret v
  | x :: rest => let* v' := callback x v in forEach rest callback v'
  end.

(** The loop of [Array.prototype.filter]: an element is appended to the
    result array when the callback answers true. *)
Fixpoint filter_loop (xs : list Value) (callback : Value -> Exec Heap bool)
    (result : Value) : Exec Heap unit :=
  match xs with
  | [] => ret tt
  | x :: rest =>
      let* selected := callback x in
      (if selected then push result x else ret tt);;
      filter_loop rest callback result
  end.

(** [array.filter(callback)]: the result array is created first. *)
Definition array_filter (array : Value) (callback : Value -> Exec Heap bool)
  : Exec Heap Value :=
  let* xs := items_of array in
  let* result := alloc (OArray []) in
  filter_loop xs callback result;;
  ret result.

(** ** filterWalletTransactions *)

Section WalletMatcher.

(** [script.toAddress(network).toString()], from dashcore-lib. *)
Variable toAddress : Script -> string -> string.

Definition filterWalletTransactions
    (transactions addressList : Value) (network : string) : Exec Heap Value :=
  let* spentOutputs := alloc (OArray []) in
  let* unspentOutputs := alloc (OArray []) in
  let* filteredTransactions :=
    array_filter transactions (fun tx =>
      let isWalletTransaction := false in
      let* inputs := get_inputs tx in
      let* inputs := items_of inputs in
      let* isWalletTransaction :=
        forEach inputs (fun input isWalletTransaction =>
          let* script := get_script input in
          match script with
          | Some script =>
              let addr := toAddress script network in
              let* found := includes addressList (VString addr) in
              if found
              then push spentOutputs input;; ret true
              else ret isWalletTransaction
          | None => ret isWalletTransaction
          end) isWalletTransaction in
      let* outputs := get_outputs tx in
      let* outputs := items_of outputs in
      let* isWalletTransaction :=
        forEach outputs (fun output isWalletTransaction =>
          let* script := get_script output in
          match script with
          | Some script =>
              let addr := toAddress script network in
              let* found := includes addressList (VString addr) in
              if found
              then push unspentOutputs output;; ret true
              else ret isWalletTransaction
          | None => throw TypeError
          end) isWalletTransaction in
      ret isWalletTransaction) in
  alloc (OMatch filteredTransactions spentOutputs unspentOutputs).

(** *** Reading the arguments and the result back from the store

    The statements below speak about what the arguments hold; these
    functions read it off a store.  An input or an output is named by its
    reference, so two occurrences of one object are told from two equal
    objects. *)

Record TxView : Type := {
  tx_ref : loc;
  tx_inputs : list Scripted;
  tx_outputs : list Scripted;
}.

Definition view_array (h : Heap) (v : Value) : option (list Value) :=
  match v with
  | VRef l => match h !! l with Some (OArray xs) => Some xs | _ => None end
  | VString _ => None
  end.

Definition view_input (h : Heap) (v : Value) : option Scripted :=
  match v with
  | VRef l => match h !! l with Some (OInput s) => Some (l, s) | _ => None end
  | VString _ => None
  end.

Definition view_output (h : Heap) (v : Value) : option Scripted :=
  match v with
  | VRef l => match h !! l with Some (OOutput s) => Some (l, s) | _ => None end
  | VString _ => None
  end.

Definition view_transaction (h : Heap) (v : Value) : option TxView :=
  match v with
  | VRef l =>
      match h !! l with
      | Some (OTransaction ins outs) =>
          xs ← view_array h ins;
          inputs ← mapM (view_input h) xs;
          ys ← view_array h outs;
          outputs ← mapM (view_output h) ys;
          Some {| tx_ref := l; tx_inputs := inputs; tx_outputs := outputs |}
      | _ => None
      end
  | VString _ => None
  end.

Definition view_transactions (h : Heap) (v : Value) : option (list TxView) :=
  xs ← view_array h v; mapM (view_transaction h) xs.

Definition view_string (v : Value) : option string :=
  match v with VString s => Some s | VRef _ => None end.

Definition view_addresses (h : Heap) (v : Value) : option (list string) :=
  xs ← view_array h v; mapM view_string xs.

Record MatchView : Type := {
  m_transactions : list Value;
  m_spentOutputs : list Value;
  m_unspentOutputs : list Value;
}.

Definition view_match (h : Heap) (v : Value) : option MatchView :=
  match v with
  | VRef l =>
      match h !! l with
      | Some (OMatch ts so uo) =>
          kept ← view_array h ts;
          spent ← view_array h so;
          unspent ← view_array h uo;
          Some {| m_transactions := kept; m_spentOutputs := spent;
                  m_unspentOutputs := unspent |}
      | _ => None
      end
  | VString _ => None
  end.

(** What a caller of the function can see of a run: the three arrays of the
    returned object, or the exception. *)
Definition observe (r : Completion Value * Heap) : Completion (option MatchView) :=
  match r with
  | (Normal v, h) => Normal (view_match h v)
  | (Thrown e, _) => Thrown e
  | (Suspended, _) => Suspended
  end.

(** *** The words of the contract

    "A spending input is wallet-owned if its signature script resolves to an
    address in the set; an output is wallet-owned if its locking script
    resolves to an address in the set." *)

Definition resolves (A : list string) (network : string) (s : option Script) : bool :=
  match s with
  | Some script => existsb (String.eqb (toAddress script network)) A
  | None => false
  end.

Definition owned (A : list string) (network : string) (x : Scripted) : Prop :=
  Is_true (resolves A network x.2).

#[global] Instance owned_dec A network x : Decision (owned A network x) :=
  Is_true_dec _.

(** The matched ones among some inputs or outputs, in order. *)
Definition matched (A : list string) (network : string) (xs : list Scripted) : list loc :=
  (filter (owned A network) xs).*1.

(** At least one of them matches. *)
Definition resolving (A : list string) (network : string) (xs : list Scripted) : bool :=
  existsb (fun x => resolves A network x.2) xs.

(** "A transaction is retained iff at least one input or output matches." *)
Definition is_wallet_tx (A : list string) (network : string) (t : TxView) : bool :=
  resolving A network (tx_inputs t) || resolving A network (tx_outputs t).

Definition kept_of (A : list string) (network : string) (T : list TxView) : list loc :=
  tx_ref <$> filter (fun t => Is_true (is_wallet_tx A network t)) T.

Definition spent_of (A : list string) (network : string) (T : list TxView) : list loc :=
  T ≫= (fun t => matched A network (tx_inputs t)).

Definition unspent_of (A : list string) (network : string) (T : list TxView) : list loc :=
  T ≫= (fun t => matched A network (tx_outputs t)).

Definition has_script (x : Scripted) : bool :=
  match x.2 with Some _ => true | None => false end.

Definition every_output_has_script (T : list TxView) : bool :=
  forallb (fun t => forallb has_script (tx_outputs t)) T.

End WalletMatcher.

(** ** Promises *)

(** A promise, told by how it eventually settles; [Pending] is a promise
    that never does. *)
Inductive Promise (A : Type) : Type :=
| Fulfilled (a : A)
| Rejected (e : Error)
| Pending.

Arguments Fulfilled {A} a.
Arguments Rejected {A} e.
Arguments Pending {A}.

(** [await p] *)
Definition await {S A : Type} (p : Promise A) : Exec S A :=
  fun s =>
    match p with
    | Fulfilled a => (Normal a, s)
    | Rejected e => (Thrown e, s)
    | Pending => (Suspended, s)
    end.

(** Calling an async function: what it does to the state before it hands
    back its promise, and the promise. *)
Definition call {S A : Type} (f : S -> Promise A * S) : Exec S (Promise A) :=
  fun s => let (p, s') := f s in (Normal p, s').

(** ** The worker *)

Inductive JSValue : Type :=
| JUndefined
| JBoolean (b : bool)
| JNumber (n : Z)
| JString (s : string)
| JStrings (xs : list string).

Record BlockHeader : Type := {
  hash : string;
}.

(** The transport dependency, as far as the class uses it. *)
Record Transport : Type := {
  getBlockHeaderByHeight : N -> Promise BlockHeader;
}.

Inductive Stream : Type :=
| StreamHandle (id : nat).

(** The calls the transport and its streams receive, in order. *)
Inductive TransportCall : Type :=
| CallGetBlockHeaderByHeight (height : N)
| CallSubscribe
| CallCancel (s : Stream).

(** The store of the storage dependency, laid out as in the mock of the
    [getLastSyncedBlockHash] test: [store.wallets[walletId].accounts[index]]
    holds [blockHeight] and [blockHash]. *)
Record AccountStore : Type := {
  label : option string;
  accountNetwork : string;
  blockHeight : N;
  blockHash : string;
}.

Record WalletStore : Type := {
  accounts : gmap N AccountStore;
}.

Record SyncOptions : Type := {
  skipSynchronizationBeforeHeight : option N;
}.

Record Store : Type := {
  wallets : gmap string WalletStore;
  syncOptions : option SyncOptions;
}.

Record Storage : Type := {
  store : Store;
}.

(** The fields of a worker object.  The dependencies are attached by the
    plugin host after construction; until then they are undefined. *)
Record Worker : Type := {
  props : gmap string JSValue;
  syncIncomingTransactions : bool;
  stream : option Stream;
  incomingSyncPromise : option (Promise unit);
  storage : option Storage;
  transport : option Transport;
  network : option string;
  walletId : option string;
  index : option N;
  walletType : option string;
}.

(** The worker together with the record of what it asked of the transport. *)
Record World : Type := {
  self : Worker;
  calls : list TransportCall;
}.

Definition with_syncIncomingTransactions (b : bool) (w : Worker) : Worker :=
  {| props := props w; syncIncomingTransactions := b; stream := stream w;
     incomingSyncPromise := incomingSyncPromise w; storage := storage w;
     transport := transport w; network := network w; walletId := walletId w;
     index := index w; walletType := walletType w |}.

Definition with_stream (s : option Stream) (w : Worker) : Worker :=
  {| props := props w; syncIncomingTransactions := syncIncomingTransactions w;
     stream := s; incomingSyncPromise := incomingSyncPromise w;
     storage := storage w; transport := transport w; network := network w;
     walletId := walletId w; index := index w; walletType := walletType w |}.

Definition with_incomingSyncPromise (p : option (Promise unit)) (w : Worker) : Worker :=
  {| props := props w; syncIncomingTransactions := syncIncomingTransactions w;
     stream := stream w; incomingSyncPromise := p; storage := storage w;
     transport := transport w; network := network w; walletId := walletId w;
     index := index w; walletType := walletType w |}.

Definition with_storage (st : option Storage) (w : Worker) : Worker :=
  {| props := props w; syncIncomingTransactions := syncIncomingTransactions w;
     stream := stream w; incomingSyncPromise := incomingSyncPromise w;
     storage := st; transport := transport w; network := network w;
     walletId := walletId w; index := index w; walletType := walletType w |}.

(** [this.field = value] *)
Definition assign (f : Worker -> Worker) : Exec World unit :=
  fun world => (Normal tt, {| self := f (self world); calls := calls world |}).

(** [this.field] *)
Definition this {A : Type} (field : Worker -> A) : Exec World A :=
  fun world => (Normal (field (self world)), world).

(** [this.dependency.member]: a TypeError when the dependency is undefined. *)
Definition member {A : Type} (dependency : Worker -> option A) : Exec World A :=
  fun world =>
    match dependency (self world) with
    | Some d => (Normal d, world)
    | None => (Thrown TypeError, world)
    end.

Definition record (c : TransportCall) : Exec World unit :=
  fun world => (Normal tt, {| self := self world; calls := calls world ++ [c] |}).

(** *** constructor *)

Definition defaults : gmap string JSValue :=
  list_to_map
    [ ("name", JString "TransactionSyncStreamWorker");
      ("executeOnStart", JBoolean true);
      ("firstExecutionRequired", JBoolean true);
      ("workerIntervalTime", JNumber 0);
      ("gapLimit", JNumber 10);
      ("dependencies",
        JStrings [ "importTransactions"; "importBlockHeader"; "importInstantLock";
                   "storage"; "transport"; "walletId"; "getAddress"; "network";
                   "index"; "BIP44PATH"; "walletType" ]) ].

(** [{ ...defaults, ...options }]: a key of [options] replaces the default of
    the same name; spreading an undefined [options] adds nothing. *)
Definition spread (options : option (gmap string JSValue)) : gmap string JSValue :=
  default ∅ options ∪ defaults.

(** Modelled from the spec: the base class [Worker] (required from
    [../../Worker]) receives the merged options; the worker's configuration
    ([gapLimit] among it, section 6) is what that object holds, and no
    dependency is attached yet. *)
Definition Worker_super (merged : gmap string JSValue) : Worker :=
  {| props := merged; syncIncomingTransactions := false; stream := None;
     incomingSyncPromise := None; storage := None; transport := None;
     network := None; walletId := None; index := None; walletType := None |}.

Definition constructor (options : option (gmap string JSValue)) : Worker :=
  let this := Worker_super (spread options) in
  let this := with_syncIncomingTransactions false this in
  let this := with_stream None this in
  with_incomingSyncPromise None this.

Definition gapLimit (w : Worker) : option JSValue := props w !! "gapLimit".

(** *** The checkpoint methods *)

Definition account_of (w : Worker) : option AccountStore :=
  st ← storage w;
  wid ← walletId w;
  i ← index w;
  ws ← wallets (store st) !! wid;
  accounts ws !! i.

Definition write_account (f : AccountStore -> AccountStore) (w : Worker) : option Worker :=
  st ← storage w;
  wid ← walletId w;
  i ← index w;
  ws ← wallets (store st) !! wid;
  a ← accounts ws !! i;
  let ws' := {| accounts := <[i := f a]> (accounts ws) |} in
  let st' := {| store := {| wallets := <[wid := ws']> (wallets (store st));
                            syncOptions := syncOptions (store st) |} |} in
  Some (with_storage (Some st') w).

Definition update_account (f : AccountStore -> AccountStore) : Exec World unit :=
  fun world =>
    match write_account f (self world) with
    | Some w => (Normal tt, {| self := w; calls := calls world |})
    | None => (Thrown TypeError, world)
    end.

(** Modelled from the spec: [methods/getLastSyncedBlockHeight] and
    [methods/getLastSyncedBlockHash] are not among the sources; section 6
    gives [getLastSyncedBlockHeight(account) -> uint] and
    [getLastSyncedBlockHash(account) -> Hash256], and the test of the latter
    fixes where the account state lives. *)
Definition getLastSyncedBlockHeight (w : Worker) : option N :=
  blockHeight <$> account_of w.

Definition getLastSyncedBlockHash (w : Worker) : option string :=
  blockHash <$> account_of w.

(** Modelled from the spec: [methods/setLastSyncedBlockHeight] and
    [methods/setLastSyncedBlockHash] are not among the sources; section 6
    gives [setLastSyncedBlockHeight(account, height)] and
    [setLastSyncedBlockHash(account, hash)], which persist the value in the
    account state the getters read.  Writing to an account the store does not
    hold is a TypeError, as any property write on undefined. *)
Definition setLastSyncedBlockHeight (height : N) : Exec World unit :=
  update_account (fun a =>
    {| label := label a; accountNetwork := accountNetwork a;
       blockHeight := height; blockHash := blockHash a |}).

Definition setLastSyncedBlockHash (h : string) : Exec World unit :=
  update_account (fun a =>
    {| label := label a; accountNetwork := accountNetwork a;
       blockHeight := blockHeight a; blockHash := h |}).

(** *** The lifecycle methods *)

Section Lifecycle.

(** [methods/startHistoricalSync] and [methods/startIncomingSync] are not
    among the sources.  Each is an async method: a call changes the world and
    gives a promise. *)
Variable startHistoricalSync : option string -> World -> Promise unit * World.
Variable startIncomingSync : World -> Promise unit * World.

(** The guard [if (skipSynchronizationBeforeHeight)] is a truthiness test:
    undefined is falsy, and so is 0. *)
Definition onStart : Exec World unit :=
  let* storage := member storage in
  let skipSynchronizationBeforeHeight :=
    syncOptions (store storage) ≫= skipSynchronizationBeforeHeight in
  match skipSynchronizationBeforeHeight with
  | Some height =>
      if (height =? 0)%N then ret tt
      else
        let* transport := member transport in
        record (CallGetBlockHeaderByHeight height);;
        let* header := await (getBlockHeaderByHeight transport height) in
        let hash := hash header in
        setLastSyncedBlockHeight height;;
        setLastSyncedBlockHash hash
  | None => ret tt
  end;;
  let* network := this network in
  let* historicalSync := call (startHistoricalSync network) in
  await historicalSync.

Definition execute : Exec World unit :=
  assign (with_syncIncomingTransactions true);;
  let* incomingSync := call startIncomingSync in
  assign (with_incomingSyncPromise (Some incomingSync)).

Definition onStop : Exec World unit :=
  assign (with_syncIncomingTransactions false);;
  let* stream := this stream in
  match stream with
  | Some stream =>
      record (CallCancel stream);;
      assign (with_stream None)
  | None => ret tt
  end.

End Lifecycle.

(** ** Names for the pieces of a run

    The three arrays a run of [filterWalletTransactions] creates sit behind
    the cells that were there before. *)
Definition scratch (so uo ft : list Value) : Heap :=
  [OArray so; OArray uo; OArray ft].

Section MatcherPieces.

Variable toAddress : Script -> string -> string.

(** The callbacks of [filterWalletTransactions], named. *)
Definition on_input (spentOutputs addressList : Value) (network : string)
    (input : Value) (isWalletTransaction : bool) : Exec Heap bool :=
  let* script := get_script input in
  match script with
  | Some script =>
      let addr := toAddress script network in
      let* found := includes addressList (VString addr) in
      if found
      then push spentOutputs input;; ret true
      else ret isWalletTransaction
  | None => ret isWalletTransaction
  end.

Definition on_output (unspentOutputs addressList : Value) (network : string)
    (output : Value) (isWalletTransaction : bool) : Exec Heap bool :=
  let* script := get_script output in
  match script with
  | Some script =>
      let addr := toAddress script network in
      let* found := includes addressList (VString addr) in
      if found
      then push unspentOutputs output;; ret true
      else ret isWalletTransaction
  | None => throw TypeError
  end.

Definition on_transaction (spentOutputs unspentOutputs addressList : Value)
    (network : string) (tx : Value) : Exec Heap bool :=
  let* inputs := get_inputs tx in
  let* inputs := items_of inputs in
  let* isWalletTransaction :=
    forEach inputs (on_input spentOutputs addressList network) false in
  let* outputs := get_outputs tx in
  let* outputs := items_of outputs in
  let* isWalletTransaction :=
    forEach outputs (on_output unspentOutputs addressList network)
      isWalletTransaction in
  ret isWalletTransaction.

(** A store holds the inputs, the outputs, the transactions and the
    addresses that a view names. *)
Definition inputs_in (h : Heap) (xs : list Scripted) : Prop :=
  Forall (fun x => h !! x.1 = Some (OInput x.2)) xs.

Definition outputs_in (h : Heap) (xs : list Scripted) : Prop :=
  Forall (fun x => h !! x.1 = Some (OOutput x.2)) xs.

Definition tx_in (h : Heap) (t : TxView) : Prop :=
  exists ins outs,
    h !! tx_ref t = Some (OTransaction (VRef ins) (VRef outs))
    /\ h !! ins = Some (OArray (VRef <$> (tx_inputs t).*1))
    /\ inputs_in h (tx_inputs t)
    /\ h !! outs = Some (OArray (VRef <$> (tx_outputs t).*1))
    /\ outputs_in h (tx_outputs t).

End MatcherPieces.

(** A computation leaves the cells of [h0] alone: whatever else the store
    holds, it only adds cells behind them and writes behind them; [Q] holds
    of what it returns. *)
Definition keeps {A : Type} (h0 : Heap) (m : Exec Heap A) (Q : A -> Prop) : Prop :=
  forall ext, exists ext',
    final (m (h0 ++ ext)) = h0 ++ ext'
    /\ forall a, completion (m (h0 ++ ext)) = Normal a -> Q a.

Definition behind (h0 : Heap) (v : Value) : Prop :=
  match v with
  | VRef l => length h0 <= l
  | VString _ => True
  end.

Definition anything {A : Type} (a : A) : Prop := True.

(** ** Sample data *)

(** A stand-in for dashcore's address derivation: the address names the
    network and the script. *)
Definition sample_toAddress (s : Script) (network : string) : string :=
  match s with
  | ScriptHex hex => String.append network (String.append ":" hex)
  end.

(** Two transactions.  The first (cell 6) has an input without a script
    (cell 0), an input spending from the wallet (cell 1), an output to the
    wallet (cell 2) and an output elsewhere (cell 3); the second (cell 11) is
    a coinbase transaction paying elsewhere: its only input (cell 7) has no
    script. *)
Definition sample_heap : Heap :=
  [ OInput None;
    OInput (Some (ScriptHex "aa"));
    OOutput (Some (ScriptHex "bb"));
    OOutput (Some (ScriptHex "cc"));
    OArray [VRef 0; VRef 1];
    OArray [VRef 2; VRef 3];
    OTransaction (VRef 4) (VRef 5);
    OInput None;
    OOutput (Some (ScriptHex "ee"));
    OArray [VRef 7];
    OArray [VRef 8];
    OTransaction (VRef 9) (VRef 10);
    OArray [VRef 6; VRef 11];
    OArray [VString "testnet:aa"; VString "testnet:bb"] ].

Definition sample_transactions : Value := VRef 12.
Definition sample_addressList : Value := VRef 13.

Definition sample_payment : TxView :=
  {| tx_ref := 6;
     tx_inputs := [(0, None); (1, Some (ScriptHex "aa"))];
     tx_outputs := [(2, Some (ScriptHex "bb")); (3, Some (ScriptHex "cc"))] |}.

Definition sample_coinbase : TxView :=
  {| tx_ref := 11;
     tx_inputs := [(7, None)];
     tx_outputs := [(8, Some (ScriptHex "ee"))] |}.

Definition sample_T : list TxView := [sample_payment; sample_coinbase].

Definition sample_A : list string := ["testnet:aa"; "testnet:bb"].

(** The same objects, listed by two other arrays in a larger store. *)
Definition copied_heap : Heap :=
  sample_heap
    ++ [ OArray [VString "unrelated"];
         OArray [VRef 6; VRef 11];
         OArray [VString "testnet:aa"; VString "testnet:bb"] ].

Definition copied_transactions : Value := VRef 15.
Definition copied_addressList : Value := VRef 16.

(** The same transaction object listed twice. *)
Definition twice_heap : Heap :=
  [ OInput (Some (ScriptHex "aa"));
    OOutput (Some (ScriptHex "bb"));
    OArray [VRef 0];
    OArray [VRef 1];
    OTransaction (VRef 2) (VRef 3);
    OArray [VRef 4; VRef 4];
    OArray [VString "testnet:aa"] ].

Definition twice_transactions : Value := VRef 5.
Definition twice_addressList : Value := VRef 6.

(** A transaction with an output whose script is missing. *)
Definition scriptless_heap : Heap :=
  [ OInput (Some (ScriptHex "aa"));
    OOutput None;
    OArray [VRef 0];
    OArray [VRef 1];
    OTransaction (VRef 2) (VRef 3);
    OArray [VRef 4];
    OArray [VString "testnet:aa"] ].

Definition scriptless_transactions : Value := VRef 5.
Definition scriptless_addressList : Value := VRef 6.

(** A transaction (cell 5) with an input that has a script, though not one of
    the wallet (cell 0), next to an input without a script (cell 1), paying
    elsewhere (cell 2). *)
Definition mixed_heap : Heap :=
  [ OInput (Some (ScriptHex "dd"));
    OInput None;
    OOutput (Some (ScriptHex "ee"));
    OArray [VRef 0; VRef 1];
    OArray [VRef 2];
    OTransaction (VRef 3) (VRef 4);
    OArray [VRef 5];
    OArray [VString "testnet:aa"] ].

Definition mixed_transactions : Value := VRef 6.
Definition mixed_addressList : Value := VRef 7.

Definition mixed_transaction : TxView :=
  {| tx_ref := 5;
     tx_inputs := [(0, Some (ScriptHex "dd")); (1, None)];
     tx_outputs := [(2, Some (ScriptHex "ee"))] |}.

(** The mock of the [getLastSyncedBlockHash] test. *)
Definition mock_account : AccountStore :=
  {| label := None;
     accountNetwork := "testnet";
     blockHeight := 458971;
     blockHash := "00000072edc9e031ff7aa3eb529511538c8a4899d5befea28848578e06c73313" |}.

Definition mock_store (account : AccountStore) (options : option SyncOptions) : Store :=
  {| wallets := {[ "f03f3fa4b5" := {| accounts := {[ 0%N := account ]} |} ]};
     syncOptions := options |}.

Definition mock : Worker :=
  {| props := ∅; syncIncomingTransactions := false; stream := None;
     incomingSyncPromise := None;
     storage := Some {| store := mock_store mock_account None |};
     transport := None; network := None;
     walletId := Some "f03f3fa4b5"; index := Some 0%N;
     walletType := Some "single_address" |}.

(** A transport that knows the header of block 458971 only. *)
Definition sample_transport : Transport :=
  {| getBlockHeaderByHeight := fun height =>
       if (height =? 458971)%N
       then Fulfilled {| hash := "00000072edc9e031ff7aa3eb529511538c8a4899d5befea28848578e06c73313" |}
       else Rejected (Failure "not found") |}.

Definition stale_account : AccountStore :=
  {| label := None; accountNetwork := "testnet"; blockHeight := 120000;
     blockHash := "000000aa" |}.

(** A worker with its dependencies attached and a stream open, whose
    checkpoint is at block 120000, configured to skip what lies before
    [skip]. *)
Definition sample_worker (skip : option N) : Worker :=
  {| props := spread None; syncIncomingTransactions := true;
     stream := Some (StreamHandle 1); incomingSyncPromise := None;
     storage :=
       Some {| store := mock_store stale_account
                          (Some {| skipSynchronizationBeforeHeight := skip |}) |};
     transport := Some sample_transport; network := Some "testnet";
     walletId := Some "f03f3fa4b5"; index := Some 0%N;
     walletType := Some "single_address" |}.

Definition sample_world (skip : option N) : World :=
  {| self := sample_worker skip; calls := [] |}.

(** A historical sync that finds nothing to do. *)
Definition idle : option string -> World -> Promise unit * World :=
  fun _ world => (Fulfilled tt, world).

(** A historical sync that opens a stream and then fails. *)
Definition failing : option string -> World -> Promise unit * World :=
  fun _ world =>
    (Rejected (Failure "merkle proof mismatch"),
     {| self := self world; calls := calls world ++ [CallSubscribe] |}).

(** An incoming sync that opens a stream and then runs for good. *)
Definition endless : World -> Promise unit * World :=
  fun world =>
    (Pending,
     {| self := with_stream (Some (StreamHandle 2)) (self world);
        calls := calls world ++ [CallSubscribe] |}).

(** ** Reading a stream response *)

(** A [TransactionsWithProofsResponse] of the transport, as far as the class
    reads it.  A getter gives [None] where the message carries no such
    payload: the value is then falsy. *)
Record RawTransactions : Type := {
  getTransactionsList : list (list Byte.byte);
}.

Record InstantSendLockMessages : Type := {
  getMessagesList : list (list Byte.byte);
}.

Record StreamResponse : Type := {
  getRawMerkleBlock : option (list Byte.byte);
  getRawTransactions : option RawTransactions;
  getInstantSendLockMessages : option InstantSendLockMessages;
}.

(** [raws.map((raw) => new C(Buffer.from(raw)))]: the objects are built in
    the order of the list, and the first constructor that throws ends the
    call. *)
Fixpoint map_new {T : Type} (construct : list Byte.byte -> Error + T)
    (raws : list (list Byte.byte)) : Completion (list T) :=
  match raws with
  | [] => Normal []
  | raw :: rest =>
      match construct raw with
      | inl e => Thrown e
      | inr t =>
          match map_new construct rest with
          | Normal ts => Normal (t :: ts)
          | Thrown e => Thrown e
          | Suspended => Suspended
          end
      end
  end.

Section StreamResponses.

(** The dashcore classes [MerkleBlock], [Transaction] and [InstantLock], and
    what [new C(buffer)] gives: the object decoded from the bytes, or the
    error the constructor throws. *)
Variables MerkleBlock Transaction InstantLock : Type.
Variable new_MerkleBlock : list Byte.byte -> Error + MerkleBlock.
Variable new_Transaction : list Byte.byte -> Error + Transaction.
Variable new_InstantLock : list Byte.byte -> Error + InstantLock.

Definition getMerkleBlockFromStreamResponse (response : StreamResponse)
  : Completion (option MerkleBlock) :=
  let merkleBlock := None in
  let rawMerkleBlock := getRawMerkleBlock response in
  match rawMerkleBlock with
  | Some rawMerkleBlock =>
      match new_MerkleBlock rawMerkleBlock with
      | inl e => Thrown e
      | inr merkleBlock => Normal (Some merkleBlock)
      end
  | None => Normal merkleBlock
  end.

Definition getTransactionListFromStreamResponse (response : StreamResponse)
  : Completion (list Transaction) :=
  let walletTransactions := [] in
  let transactions := getRawTransactions response in
  match transactions with
  | Some transactions =>
      map_new new_Transaction (getTransactionsList transactions)
  | None => Normal walletTransactions
  end.

Definition getInstantSendLocksFromResponse (response : StreamResponse)
  : Completion (list InstantLock) :=
  let walletTransactions := [] in
  let instantSendLockMessages := getInstantSendLockMessages response in
  match instantSendLockMessages with
  | Some instantSendLockMessages =>
      map_new new_InstantLock (getMessagesList instantSendLockMessages)
  | None => Normal walletTransactions
  end.

End StreamResponses.

(** The raw transactions and the raw instant locks a response carries. *)
Definition raw_transactions (response : StreamResponse) : list (list Byte.byte) :=
  from_option getTransactionsList [] (getRawTransactions response).

Definition raw_instant_locks (response : StreamResponse) : list (list Byte.byte) :=
  from_option getMessagesList [] (getInstantSendLockMessages response).

(** The [transactions] property of the object a run of
    [filterWalletTransactions] returned. *)
Definition match_transactions (h : Heap) (r : Value) : option Value :=
  match r with
  | VRef l => match h !! l with Some (OMatch ts _ _) => Some ts | _ => None end
  | VString _ => None
  end.

(** *** More sample data *)

(** A stand-in for a dashcore constructor: it takes any bytes but none, and
    keeps them. *)
Definition sample_new (raw : list Byte.byte) : Error + list Byte.byte :=
  match raw with
  | [] => inl (Failure "empty buffer")
  | _ => inr raw
  end.

Definition sample_response : StreamResponse :=
  {| getRawMerkleBlock := None;
     getRawTransactions :=
       Some {| getTransactionsList := [[Byte.x01; Byte.x02]; [Byte.x03]] |};
     getInstantSendLockMessages :=
       Some {| getMessagesList := [[Byte.x04]; []; [Byte.x05]] |} |}.

Definition empty_response : StreamResponse :=
  {| getRawMerkleBlock := None; getRawTransactions := None;
     getInstantSendLockMessages := None |}.

(** The sample store with three more arrays: the two transactions one by
    one, and a shorter address list. *)
Definition split_heap : Heap :=
  sample_heap ++ [ OArray [VRef 6]; OArray [VRef 11]; OArray [VString "testnet:aa"] ].

Definition split_first : Value := VRef 14.
Definition split_second : Value := VRef 15.
Definition split_addressList : Value := VRef 16.

(** * Facts *)

(** ** The monad *)

Lemma bind_normal {S A B : Type} (m : Exec S A) (k : A -> Exec S B) s a s' :
  m s = (Normal a, s') -> bind m k s = k a s'.
Proof. intros H. unfold bind. now rewrite H. Qed.

Lemma bind_thrown {S A B : Type} (m : Exec S A) (k : A -> Exec S B) s e s' :
  m s = (Thrown e, s') -> bind m k s = (Thrown e, s').
Proof. intros H. unfold bind. now rewrite H. Qed.

Lemma bind_ret {S A B : Type} (a : A) (k : A -> Exec S B) s :
  bind (ret a) k s = k a s.
Proof. reflexivity. Qed.

Lemma bind_alloc {B : Type} (o : Obj) (k : Value -> Exec Heap B) h :
  bind (alloc o) k h = k (VRef (length h)) (h ++ [o]).
Proof. reflexivity. Qed.

(** One step of a run: the computation at the head of a [bind] returns, as
    the lemma says. *)
Ltac step_with lemma :=
  erewrite bind_normal; [|eapply lemma; eassumption].

(** ** Cells that exist are found again after the store has grown *)

Lemma lookup_old (h ext : Heap) l o :
  h !! l = Some o -> (h ++ ext) !! l = Some o.
Proof. apply lookup_app_l_Some. Qed.

Lemma items_of_old (h ext : Heap) l xs :
  h !! l = Some (OArray xs) ->
  items_of (VRef l) (h ++ ext) = (Normal xs, h ++ ext).
Proof. intros H. unfold items_of. now rewrite (lookup_old _ ext _ _ H). Qed.

Lemma get_inputs_old (h ext : Heap) l ins outs :
  h !! l = Some (OTransaction ins outs) ->
  get_inputs (VRef l) (h ++ ext) = (Normal ins, h ++ ext).
Proof. intros H. unfold get_inputs. now rewrite (lookup_old _ ext _ _ H). Qed.

Lemma get_outputs_old (h ext : Heap) l ins outs :
  h !! l = Some (OTransaction ins outs) ->
  get_outputs (VRef l) (h ++ ext) = (Normal outs, h ++ ext).
Proof. intros H. unfold get_outputs. now rewrite (lookup_old _ ext _ _ H). Qed.

Lemma get_script_input_old (h ext : Heap) l s :
  h !! l = Some (OInput s) ->
  get_script (VRef l) (h ++ ext) = (Normal s, h ++ ext).
Proof. intros H. unfold get_script. now rewrite (lookup_old _ ext _ _ H). Qed.

Lemma get_script_output_old (h ext : Heap) l s :
  h !! l = Some (OOutput s) ->
  get_script (VRef l) (h ++ ext) = (Normal s, h ++ ext).
Proof. intros H. unfold get_script. now rewrite (lookup_old _ ext _ _ H). Qed.

Lemma existsb_sameValueZero a (A : list string) :
  existsb (sameValueZero (VString a)) (VString <$> A) = existsb (String.eqb a) A.
Proof. induction A as [|b A IH]; [reflexivity|]. cbn. now rewrite <- IH. Qed.

Lemma includes_old (h ext : Heap) l (A : list string) a :
  h !! l = Some (OArray (VString <$> A)) ->
  includes (VRef l) (VString a) (h ++ ext)
  = (Normal (existsb (String.eqb a) A), h ++ ext).
Proof.
  intros H. unfold includes.
  rewrite (bind_normal _ _ _ _ _ (items_of_old _ ext _ _ H)).
  unfold ret. now rewrite existsb_sameValueZero.
Qed.

Lemma array_filter_old (h ext : Heap) l xs callback :
  h !! l = Some (OArray xs) ->
  array_filter (VRef l) callback (h ++ ext)
  = (filter_loop xs callback (VRef (length (h ++ ext)));;
     ret (VRef (length (h ++ ext)))) ((h ++ ext) ++ [OArray []]).
Proof.
  intros H. unfold array_filter.
  step_with items_of_old.
  now rewrite bind_alloc.
Qed.

(** ** Pushing on the three arrays of a run *)

Lemma push_spent (h : Heap) so uo ft x :
  push (VRef (length h)) x (h ++ scratch so uo ft)
  = (Normal tt, h ++ scratch (so ++ [x]) uo ft).
Proof.
  unfold push, scratch.
  rewrite lookup_app_r by lia. rewrite Nat.sub_diag. simpl.
  replace (length h) with (length h + 0) at 1 by lia.
  now rewrite insert_app_r.
Qed.

Lemma push_unspent (h : Heap) so uo ft x :
  push (VRef (length h + 1)) x (h ++ scratch so uo ft)
  = (Normal tt, h ++ scratch so (uo ++ [x]) ft).
Proof.
  unfold push, scratch.
  rewrite lookup_app_r by lia.
  replace (length h + 1 - length h) with 1 by lia. simpl.
  now rewrite insert_app_r.
Qed.

Lemma push_kept (h : Heap) so uo ft x :
  push (VRef (length h + 2)) x (h ++ scratch so uo ft)
  = (Normal tt, h ++ scratch so uo (ft ++ [x])).
Proof.
  unfold push, scratch.
  rewrite lookup_app_r by lia.
  replace (length h + 2 - length h) with 2 by lia. simpl.
  now rewrite insert_app_r.
Qed.

(** ** Only new cells are written *)

Lemma keeps_ret {A : Type} (h0 : Heap) (a : A) (Q : A -> Prop) :
  Q a -> keeps h0 (ret a) Q.
Proof. intros HQ ext. exists ext. split; [reflexivity|]. now intros ? [= <-]. Qed.

Lemma keeps_throw {A : Type} (h0 : Heap) e (Q : A -> Prop) :
  keeps h0 (throw e) Q.
Proof. intros ext. exists ext. split; [reflexivity|]. discriminate. Qed.

Lemma keeps_bind {A B : Type} (h0 : Heap) (m : Exec Heap A) (k : A -> Exec Heap B)
    (Q : A -> Prop) (R : B -> Prop) :
  keeps h0 m Q -> (forall a, Q a -> keeps h0 (k a) R) -> keeps h0 (bind m k) R.
Proof.
  intros Hm Hk ext. destruct (Hm ext) as (ext1 & Hfinal & HQ).
  unfold bind. destruct (m (h0 ++ ext)) as [[a|e|] s]; cbn in Hfinal, HQ; subst s.
  - apply (Hk a (HQ a eq_refl)).
  - exists ext1. split; [reflexivity|]. discriminate.
  - exists ext1. split; [reflexivity|]. discriminate.
Qed.

Lemma keeps_alloc (h0 : Heap) o : keeps h0 (alloc o) (behind h0).
Proof.
  intros ext. exists (ext ++ [o]). cbn. split; [now rewrite app_assoc|].
  intros a [= <-]. cbn. rewrite length_app. lia.
Qed.

Lemma keeps_items_of (h0 : Heap) v : keeps h0 (items_of v) anything.
Proof.
  intros ext. exists ext. unfold items_of, anything.
  destruct v as [|l]; [split; [reflexivity|discriminate]|].
  destruct (_ !! l) as [[]|]; split; try reflexivity; try discriminate; auto.
Qed.

Lemma keeps_get_inputs (h0 : Heap) v : keeps h0 (get_inputs v) anything.
Proof.
  intros ext. exists ext. unfold get_inputs, anything.
  destruct v as [|l]; [split; [reflexivity|discriminate]|].
  destruct (_ !! l) as [[]|]; split; try reflexivity; try discriminate; auto.
Qed.

Lemma keeps_get_outputs (h0 : Heap) v : keeps h0 (get_outputs v) anything.
Proof.
  intros ext. exists ext. unfold get_outputs, anything.
  destruct v as [|l]; [split; [reflexivity|discriminate]|].
  destruct (_ !! l) as [[]|]; split; try reflexivity; try discriminate; auto.
Qed.

Lemma keeps_get_script (h0 : Heap) v : keeps h0 (get_script v) anything.
Proof.
  intros ext. exists ext. unfold get_script, anything.
  destruct v as [|l]; [split; [reflexivity|auto]|].
  destruct (_ !! l) as [[]|]; split; try reflexivity; auto.
Qed.

Lemma keeps_includes (h0 : Heap) array x : keeps h0 (includes array x) anything.
Proof.
  unfold includes. eapply keeps_bind; [apply keeps_items_of|].
  intros xs _. now apply keeps_ret.
Qed.

Lemma keeps_push (h0 : Heap) array x :
  behind h0 array -> keeps h0 (push array x) anything.
Proof.
  intros Hb ext. unfold push, anything.
  destruct array as [|l]; [exists ext; split; [reflexivity|discriminate]|].
  cbn in Hb.
  destruct (_ !! l) as [[| | |xs|]|];
    try (exists ext; split; [reflexivity|discriminate]).
  exists (<[l - length h0 := OArray (xs ++ [x])]> ext). cbn. split; [|auto].
  replace l with (length h0 + (l - length h0)) at 1 by lia.
  apply insert_app_r.
Qed.

Lemma keeps_forEach {V : Type} (h0 : Heap) xs
    (callback : Value -> V -> Exec Heap V) v :
  (forall x v, keeps h0 (callback x v) anything) ->
  keeps h0 (forEach xs callback v) anything.
Proof.
  intros Hcb. revert v. induction xs as [|x xs IH]; intros v; cbn.
  - now apply keeps_ret.
  - eapply keeps_bind; [apply Hcb|]. intros v' _. apply IH.
Qed.

Lemma keeps_filter_loop (h0 : Heap) xs callback result :
  (forall x, keeps h0 (callback x) anything) ->
  behind h0 result ->
  keeps h0 (filter_loop xs callback result) anything.
Proof.
  intros Hcb Hres. induction xs as [|x xs IH]; cbn.
  - now apply keeps_ret.
  - eapply keeps_bind; [apply Hcb|]. intros selected _.
    eapply keeps_bind; [|intros _ _; apply IH].
    destruct selected; [now apply keeps_push|now apply keeps_ret].
Qed.

Lemma keeps_array_filter (h0 : Heap) array callback :
  (forall x, keeps h0 (callback x) anything) ->
  keeps h0 (array_filter array callback) (behind h0).
Proof.
  intros Hcb. unfold array_filter.
  eapply keeps_bind; [apply keeps_items_of|]. intros xs _.
  eapply keeps_bind; [apply keeps_alloc|]. intros result Hres.
  eapply keeps_bind; [now apply keeps_filter_loop|]. intros _ _.
  now apply keeps_ret.
Qed.

Section MatcherFacts.

Variable toAddress : Script -> string -> string.

Lemma filterWalletTransactions_unfold transactions addressList network :
  filterWalletTransactions toAddress transactions addressList network
  = (let* spentOutputs := alloc (OArray []) in
     let* unspentOutputs := alloc (OArray []) in
     let* filteredTransactions :=
       array_filter transactions
         (on_transaction toAddress spentOutputs unspentOutputs addressList network) in
     alloc (OMatch filteredTransactions spentOutputs unspentOutputs)).
Proof. reflexivity. Qed.

Lemma matched_cons A network x xs :
  matched toAddress A network (x :: xs)
  = if resolves toAddress A network x.2
    then x.1 :: matched toAddress A network xs
    else matched toAddress A network xs.
Proof.
  unfold matched. rewrite filter_cons.
  destruct (decide (owned toAddress A network x)) as [H|H]; unfold owned in H;
    destruct (resolves toAddress A network x.2); simpl in H; try tauto;
    reflexivity.
Qed.

(** One input: it is pushed on [spentOutputs] when its script resolves to a
    wallet address, and skipped otherwise. *)
Lemma on_input_run (h : Heap) al A network so uo ft l s isW :
  h !! al = Some (OArray (VString <$> A)) ->
  h !! l = Some (OInput s) ->
  on_input toAddress (VRef (length h)) (VRef al) network (VRef l) isW
    (h ++ scratch so uo ft)
  = (Normal (isW || resolves toAddress A network s),
     h ++ scratch (if resolves toAddress A network s then so ++ [VRef l] else so)
            uo ft).
Proof.
  intros Hal Hl. unfold on_input.
  step_with get_script_input_old.
  destruct s as [sc|]; cbn [resolves].
  - step_with includes_old.
    destruct (existsb _ A).
    + step_with push_spent.
      unfold ret. now rewrite orb_true_r.
    + unfold ret. now rewrite orb_false_r.
  - unfold ret. now rewrite orb_false_r.
Qed.

(** The loop over the inputs of a transaction never throws. *)
Lemma inputs_loop (h : Heap) al A network uo ft ins :
  h !! al = Some (OArray (VString <$> A)) ->
  inputs_in h ins ->
  forall so isW,
    forEach (VRef <$> ins.*1) (on_input toAddress (VRef (length h)) (VRef al) network)
      isW (h ++ scratch so uo ft)
    = (Normal (isW || resolving toAddress A network ins),
       h ++ scratch (so ++ (VRef <$> matched toAddress A network ins)) uo ft).
Proof.
  intros Hal Hins. induction Hins as [|[l s] ins Hl _ IH]; intros so isW.
  - cbn. unfold ret. now rewrite orb_false_r, app_nil_r.
  - simpl in Hl. cbn [fmap list_fmap forEach fst].
    step_with on_input_run.
    rewrite IH, matched_cons. unfold resolving. cbn [existsb snd fst].
    rewrite orb_assoc.
    destruct (resolves toAddress A network s); [|reflexivity].
    cbn [fmap list_fmap]. now rewrite <- app_assoc.
Qed.

(** One output: a missing script is a TypeError. *)
Lemma on_output_run (h : Heap) al A network so uo ft l s isW :
  h !! al = Some (OArray (VString <$> A)) ->
  h !! l = Some (OOutput s) ->
  on_output toAddress (VRef (length h + 1)) (VRef al) network (VRef l) isW
    (h ++ scratch so uo ft)
  = match s with
    | Some _ =>
        (Normal (isW || resolves toAddress A network s),
         h ++ scratch so
                (if resolves toAddress A network s then uo ++ [VRef l] else uo) ft)
    | None => (Thrown TypeError, h ++ scratch so uo ft)
    end.
Proof.
  intros Hal Hl. unfold on_output.
  step_with get_script_output_old.
  destruct s as [sc|]; cbn [resolves]; [|reflexivity].
  step_with includes_old.
  destruct (existsb _ A).
  - step_with push_unspent.
    unfold ret. now rewrite orb_true_r.
  - unfold ret. now rewrite orb_false_r.
Qed.

(** The loop over the outputs: it runs through when every output has a
    script and throws at the first one that has none. *)
Lemma outputs_loop (h : Heap) al A network so ft outs :
  h !! al = Some (OArray (VString <$> A)) ->
  outputs_in h outs ->
  forall uo isW,
    if forallb has_script outs
    then forEach (VRef <$> outs.*1)
           (on_output toAddress (VRef (length h + 1)) (VRef al) network) isW
           (h ++ scratch so uo ft)
         = (Normal (isW || resolving toAddress A network outs),
            h ++ scratch so (uo ++ (VRef <$> matched toAddress A network outs)) ft)
    else exists uo',
         forEach (VRef <$> outs.*1)
           (on_output toAddress (VRef (length h + 1)) (VRef al) network) isW
           (h ++ scratch so uo ft)
         = (Thrown TypeError, h ++ scratch so uo' ft).
Proof.
  intros Hal Houts. induction Houts as [|[l s] outs Hl _ IH]; intros uo isW.
  - cbn. unfold ret. now rewrite orb_false_r, app_nil_r.
  - simpl in Hl. cbn [fmap list_fmap forEach fst forallb].
    pose proof (on_output_run h al A network so uo ft l s isW Hal Hl) as Hrun.
    destruct s as [sc|]; unfold has_script at 1; cbn [snd andb].
    + specialize (IH (if resolves toAddress A network (Some sc)
                      then uo ++ [VRef l] else uo)
                     (isW || resolves toAddress A network (Some sc))).
      destruct (forallb has_script outs).
      * erewrite bind_normal; [|exact Hrun].
        rewrite IH, matched_cons. unfold resolving. cbn [existsb snd fst].
        rewrite orb_assoc.
        destruct (resolves toAddress A network (Some sc)); [|reflexivity].
        cbn [fmap list_fmap]. now rewrite <- app_assoc.
      * destruct IH as [uo' IH]. exists uo'.
        erewrite bind_normal; [|exact Hrun]. exact IH.
    + exists uo. erewrite bind_thrown; [reflexivity|exact Hrun].
Qed.

(** One transaction. *)
Lemma on_transaction_run (h : Heap) al A network so uo ft t :
  h !! al = Some (OArray (VString <$> A)) ->
  tx_in h t ->
  if forallb has_script (tx_outputs t)
  then on_transaction toAddress (VRef (length h)) (VRef (length h + 1)) (VRef al)
         network (VRef (tx_ref t)) (h ++ scratch so uo ft)
       = (Normal (is_wallet_tx toAddress A network t),
          h ++ scratch (so ++ (VRef <$> matched toAddress A network (tx_inputs t)))
                 (uo ++ (VRef <$> matched toAddress A network (tx_outputs t))) ft)
  else exists so' uo',
       on_transaction toAddress (VRef (length h)) (VRef (length h + 1)) (VRef al)
         network (VRef (tx_ref t)) (h ++ scratch so uo ft)
       = (Thrown TypeError, h ++ scratch so' uo' ft).
Proof.
  intros Hal (ins & outs & Ht & Hins & Hinputs & Houts & Houtputs).
  pose proof (outputs_loop h al A network
                (so ++ (VRef <$> matched toAddress A network (tx_inputs t))) ft
                (tx_outputs t) Hal Houtputs uo
                (false || resolving toAddress A network (tx_inputs t))) as Hloop.
  assert (Hprefix :
    on_transaction toAddress (VRef (length h)) (VRef (length h + 1)) (VRef al)
      network (VRef (tx_ref t)) (h ++ scratch so uo ft)
    = bind (forEach (VRef <$> (tx_outputs t).*1)
              (on_output toAddress (VRef (length h + 1)) (VRef al) network)
              (false || resolving toAddress A network (tx_inputs t)))
           ret
           (h ++ scratch (so ++ (VRef <$> matched toAddress A network (tx_inputs t)))
                   uo ft)).
  { unfold on_transaction.
    step_with get_inputs_old.
    step_with items_of_old.
    step_with inputs_loop.
    step_with get_outputs_old.
    step_with items_of_old.
    reflexivity. }
  destruct (forallb has_script (tx_outputs t)).
  - rewrite Hprefix. erewrite bind_normal; [|exact Hloop]. reflexivity.
  - destruct Hloop as [uo' Hloop]. eexists _, uo'.
    rewrite Hprefix. erewrite bind_thrown; [reflexivity|exact Hloop].
Qed.

Lemma kept_of_cons A network t T :
  kept_of toAddress A network (t :: T)
  = if is_wallet_tx toAddress A network t
    then tx_ref t :: kept_of toAddress A network T
    else kept_of toAddress A network T.
Proof.
  unfold kept_of. rewrite filter_cons.
  destruct (is_wallet_tx toAddress A network t); reflexivity.
Qed.

(** The loop of [filter] over the transactions. *)
Lemma transactions_loop (h : Heap) al A network T :
  h !! al = Some (OArray (VString <$> A)) ->
  Forall (tx_in h) T ->
  forall so uo ft,
    if every_output_has_script T
    then filter_loop (VRef <$> (tx_ref <$> T))
           (on_transaction toAddress (VRef (length h)) (VRef (length h + 1))
              (VRef al) network)
           (VRef (length h + 2)) (h ++ scratch so uo ft)
         = (Normal tt,
            h ++ scratch (so ++ (VRef <$> spent_of toAddress A network T))
                   (uo ++ (VRef <$> unspent_of toAddress A network T))
                   (ft ++ (VRef <$> kept_of toAddress A network T)))
    else exists so' uo' ft',
         filter_loop (VRef <$> (tx_ref <$> T))
           (on_transaction toAddress (VRef (length h)) (VRef (length h + 1))
              (VRef al) network)
           (VRef (length h + 2)) (h ++ scratch so uo ft)
         = (Thrown TypeError, h ++ scratch so' uo' ft').
Proof.
  intros Hal HT. induction HT as [|t T Ht _ IH]; intros so uo ft.
  - cbn. unfold ret. now rewrite !app_nil_r.
  - cbn [fmap list_fmap filter_loop every_output_has_script forallb].
    pose proof (on_transaction_run h al A network so uo ft t Hal Ht) as Hrun.
    destruct (forallb has_script (tx_outputs t)); cbn [andb].
    + fold (every_output_has_script T).
      erewrite bind_normal; [|exact Hrun].
      rewrite kept_of_cons.
      unfold spent_of, unspent_of. cbn [mbind list_bind].
      fold (spent_of toAddress A network T) (unspent_of toAddress A network T).
      rewrite !fmap_app, !app_assoc.
      destruct (is_wallet_tx toAddress A network t).
      * step_with push_kept.
        specialize (IH (so ++ (VRef <$> matched toAddress A network (tx_inputs t)))
                       (uo ++ (VRef <$> matched toAddress A network (tx_outputs t)))
                       (ft ++ [VRef (tx_ref t)])).
        destruct (every_output_has_script T).
        -- rewrite IH. cbn [fmap list_fmap]. now rewrite <- (app_assoc ft).
        -- exact IH.
      * rewrite bind_ret.
        specialize (IH (so ++ (VRef <$> matched toAddress A network (tx_inputs t)))
                       (uo ++ (VRef <$> matched toAddress A network (tx_outputs t)))
                       ft).
        destruct (every_output_has_script T); exact IH.
    + destruct Hrun as (so' & uo' & Hrun). exists so', uo', ft.
      erewrite bind_thrown; [reflexivity|exact Hrun].
Qed.

(** A whole run, on a store that holds the transactions [T] and the
    addresses [A]. *)
Lemma filterWalletTransactions_run (h : Heap) tl al network T A :
  h !! tl = Some (OArray (VRef <$> (tx_ref <$> T))) ->
  Forall (tx_in h) T ->
  h !! al = Some (OArray (VString <$> A)) ->
  if every_output_has_script T
  then filterWalletTransactions toAddress (VRef tl) (VRef al) network h
       = (Normal (VRef (length h + 3)),
          h ++ scratch (VRef <$> spent_of toAddress A network T)
                 (VRef <$> unspent_of toAddress A network T)
                 (VRef <$> kept_of toAddress A network T)
            ++ [OMatch (VRef (length h + 2)) (VRef (length h))
                  (VRef (length h + 1))])
  else exists ext,
       filterWalletTransactions toAddress (VRef tl) (VRef al) network h
       = (Thrown TypeError, h ++ ext).
Proof.
  intros Htl HT Hal.
  pose proof (transactions_loop h al A network T Hal HT [] [] []) as Hloop.
  assert (Hstart :
    filterWalletTransactions toAddress (VRef tl) (VRef al) network h
    = bind (filter_loop (VRef <$> (tx_ref <$> T))
              (on_transaction toAddress (VRef (length h)) (VRef (length h + 1))
                 (VRef al) network)
              (VRef (length h + 2)))
           (fun _ => alloc (OMatch (VRef (length h + 2)) (VRef (length h))
                              (VRef (length h + 1))))
           (h ++ scratch [] [] [])).
  { rewrite filterWalletTransactions_unfold. rewrite !bind_alloc. rewrite length_app. cbn [length].
    rewrite <- app_assoc. unfold bind at 1.
    rewrite (array_filter_old h _ tl _ _ Htl).
    rewrite !length_app. cbn [length app].
    rewrite <- !app_assoc. cbn [app]. fold (scratch [] [] []).
    unfold bind.
    destruct (filter_loop _ _ _ _) as [[[]|e|] h']; reflexivity. }
  destruct (every_output_has_script T).
  - rewrite Hstart. erewrite bind_normal; [|exact Hloop].
    unfold alloc. cbn [app]. rewrite length_app. cbn [length scratch].
    rewrite <- app_assoc. reflexivity.
  - destruct Hloop as (so' & uo' & ft' & Hloop). eexists.
    rewrite Hstart. erewrite bind_thrown; [reflexivity|exact Hloop].
Qed.

(** ** What the views say about the store *)

Lemma view_array_Some (h : Heap) v xs :
  view_array h v = Some xs -> exists l, v = VRef l /\ h !! l = Some (OArray xs).
Proof.
  destruct v as [|l]; [discriminate|]. cbn.
  destruct (h !! l) as [[]|] eqn:E; try discriminate.
  intros [= <-]. eauto.
Qed.

Lemma view_inputs_Some (h : Heap) xs ins :
  mapM (view_input h) xs = Some ins ->
  xs = VRef <$> ins.*1 /\ inputs_in h ins.
Proof.
  intros H%mapM_Some_1. unfold inputs_in.
  induction H as [|v x xs ins Hv _ [-> IH]]; [split; [reflexivity|constructor]|].
  destruct v as [|l]; [discriminate|]. cbn in Hv.
  destruct (h !! l) as [[]|] eqn:E; try discriminate.
  injection Hv as <-. split; [reflexivity|]. constructor; assumption.
Qed.

Lemma view_outputs_Some (h : Heap) xs outs :
  mapM (view_output h) xs = Some outs ->
  xs = VRef <$> outs.*1 /\ outputs_in h outs.
Proof.
  intros H%mapM_Some_1. unfold outputs_in.
  induction H as [|v x xs outs Hv _ [-> IH]]; [split; [reflexivity|constructor]|].
  destruct v as [|l]; [discriminate|]. cbn in Hv.
  destruct (h !! l) as [[]|] eqn:E; try discriminate.
  injection Hv as <-. split; [reflexivity|]. constructor; assumption.
Qed.

Lemma view_transaction_Some (h : Heap) v t :
  view_transaction h v = Some t -> v = VRef (tx_ref t) /\ tx_in h t.
Proof.
  destruct v as [|l]; [discriminate|]. cbn.
  destruct (h !! l) as [[| |ins outs| |]|] eqn:E; try discriminate.
  destruct (view_array h ins) as [xs|] eqn:Hxs; [|discriminate]. cbn.
  destruct (mapM (view_input h) xs) as [inputs|] eqn:Hinputs; [|discriminate]. cbn.
  destruct (view_array h outs) as [ys|] eqn:Hys; [|discriminate]. cbn.
  destruct (mapM (view_output h) ys) as [outputs|] eqn:Houtputs; [|discriminate]. cbn.
  intros [= <-]. cbn.
  apply view_array_Some in Hxs as (li & -> & Hli).
  apply view_array_Some in Hys as (lo & -> & Hlo).
  apply view_inputs_Some in Hinputs as [-> Hinputs].
  apply view_outputs_Some in Houtputs as [-> Houtputs].
  split; [reflexivity|]. exists li, lo. cbn. auto.
Qed.

Lemma view_transactions_Some (h : Heap) v T :
  view_transactions h v = Some T ->
  exists tl, v = VRef tl
    /\ h !! tl = Some (OArray (VRef <$> (tx_ref <$> T)))
    /\ Forall (tx_in h) T
    /\ Forall (fun t => view_transaction h (VRef (tx_ref t)) = Some t) T.
Proof.
  unfold view_transactions.
  destruct (view_array h v) as [xs|] eqn:Hxs; [|discriminate]. cbn.
  intros HT%mapM_Some_1.
  apply view_array_Some in Hxs as (tl & -> & Htl).
  exists tl. split; [reflexivity|].
  assert (xs = VRef <$> (tx_ref <$> T)
          /\ Forall (tx_in h) T
          /\ Forall (fun t => view_transaction h (VRef (tx_ref t)) = Some t) T)
    as (-> & ? & ?); [|auto].
  clear Htl. induction HT as [|v t vs T Hv _ (-> & IH1 & IH2)].
  - repeat split; constructor.
  - pose proof Hv as [-> Ht]%view_transaction_Some.
    repeat split; [constructor; assumption|constructor; assumption].
Qed.

Lemma view_addresses_Some (h : Heap) v A :
  view_addresses h v = Some A ->
  exists al, v = VRef al /\ h !! al = Some (OArray (VString <$> A)).
Proof.
  unfold view_addresses.
  destruct (view_array h v) as [xs|] eqn:Hxs; [|discriminate]. cbn.
  intros HA%mapM_Some_1.
  apply view_array_Some in Hxs as (al & -> & Hal).
  exists al. split; [reflexivity|].
  assert (xs = VString <$> A) as ->; [|assumption].
  clear Hal. induction HA as [|v a vs A Hv _ ->]; [reflexivity|].
  destruct v; [|discriminate]. now injection Hv as ->.
Qed.

(** Reading the returned object back. *)
Lemma view_match_run (h : Heap) so uo ft :
  view_match
    (h ++ scratch so uo ft
       ++ [OMatch (VRef (length h + 2)) (VRef (length h)) (VRef (length h + 1))])
    (VRef (length h + 3))
  = Some {| m_transactions := ft; m_spentOutputs := so; m_unspentOutputs := uo |}.
Proof.
  assert (Hcell : forall k (ext : Heap), (h ++ ext) !! (length h + k) = ext !! k).
  { intros k ext. rewrite lookup_app_r by lia. f_equal. lia. }
  assert (Hfirst : forall ext : Heap, (h ++ ext) !! length h = ext !! 0).
  { intros ext. rewrite <- (Hcell 0). f_equal. lia. }
  unfold view_match, view_array, scratch.
  rewrite Hcell. cbn. rewrite Hcell. cbn. rewrite Hfirst. cbn.
  rewrite Hcell. reflexivity.
Qed.

(** What a caller sees of a run on a store that holds [T] and [A]. *)
Lemma filterWalletTransactions_observe (h : Heap) transactions addressList network T A :
  view_transactions h transactions = Some T ->
  view_addresses h addressList = Some A ->
  observe (filterWalletTransactions toAddress transactions addressList network h)
  = if every_output_has_script T
    then Normal (Some {| m_transactions := VRef <$> kept_of toAddress A network T;
                         m_spentOutputs := VRef <$> spent_of toAddress A network T;
                         m_unspentOutputs := VRef <$> unspent_of toAddress A network T |})
    else Thrown TypeError.
Proof.
  intros (tl & -> & Htl & HT & _)%view_transactions_Some
         (al & -> & Hal)%view_addresses_Some.
  pose proof (filterWalletTransactions_run h tl al network T A Htl HT Hal) as Hrun.
  destruct (every_output_has_script T).
  - rewrite Hrun. cbn [observe]. now rewrite view_match_run.
  - destruct Hrun as [ext ->]. reflexivity.
Qed.

(** ** The function writes to nothing that was there before *)

Lemma keeps_on_input (h0 : Heap) spentOutputs addressList network input isW :
  behind h0 spentOutputs ->
  keeps h0 (on_input toAddress spentOutputs addressList network input isW) anything.
Proof.
  intros Hso. unfold on_input.
  eapply keeps_bind; [apply keeps_get_script|]. intros [script|] _.
  - eapply keeps_bind; [apply keeps_includes|]. intros [] _.
    + eapply keeps_bind; [now apply keeps_push|]. intros _ _. now apply keeps_ret.
    + now apply keeps_ret.
  - now apply keeps_ret.
Qed.

Lemma keeps_on_output (h0 : Heap) unspentOutputs addressList network output isW :
  behind h0 unspentOutputs ->
  keeps h0 (on_output toAddress unspentOutputs addressList network output isW) anything.
Proof.
  intros Huo. unfold on_output.
  eapply keeps_bind; [apply keeps_get_script|]. intros [script|] _.
  - eapply keeps_bind; [apply keeps_includes|]. intros [] _.
    + eapply keeps_bind; [now apply keeps_push|]. intros _ _. now apply keeps_ret.
    + now apply keeps_ret.
  - apply keeps_throw.
Qed.

Lemma keeps_on_transaction (h0 : Heap) spentOutputs unspentOutputs addressList
    network tx :
  behind h0 spentOutputs -> behind h0 unspentOutputs ->
  keeps h0 (on_transaction toAddress spentOutputs unspentOutputs addressList
              network tx) anything.
Proof.
  intros Hso Huo. unfold on_transaction.
  eapply keeps_bind; [apply keeps_get_inputs|]. intros ins _.
  eapply keeps_bind; [apply keeps_items_of|]. intros inputs _.
  eapply keeps_bind.
  { apply keeps_forEach. intros x v. now apply keeps_on_input. }
  intros isW _.
  eapply keeps_bind; [apply keeps_get_outputs|]. intros outs _.
  eapply keeps_bind; [apply keeps_items_of|]. intros outputs _.
  eapply keeps_bind.
  { apply keeps_forEach. intros x v. now apply keeps_on_output. }
  intros isW' _. now apply keeps_ret.
Qed.

Lemma keeps_filterWalletTransactions (h0 : Heap) transactions addressList network :
  keeps h0 (filterWalletTransactions toAddress transactions addressList network)
    (behind h0).
Proof.
  rewrite filterWalletTransactions_unfold.
  eapply keeps_bind; [apply keeps_alloc|]. intros so Hso.
  eapply keeps_bind; [apply keeps_alloc|]. intros uo Huo.
  eapply keeps_bind.
  { apply keeps_array_filter. intros tx. now apply keeps_on_transaction. }
  intros ft _. apply keeps_alloc.
Qed.

(** ** The contract of the matcher *)

#[local] Instance VRef_inj : Inj (=) (=) VRef.
Proof. now intros l1 l2 [= ->]. Qed.

Lemma resolving_Exists A network xs :
  Is_true (resolving toAddress A network xs) <-> Exists (owned toAddress A network) xs.
Proof. unfold resolving, owned. apply existb_True. Qed.

Lemma is_wallet_tx_spec A network t :
  Is_true (is_wallet_tx toAddress A network t)
  <-> Exists (owned toAddress A network) (tx_inputs t)
      \/ Exists (owned toAddress A network) (tx_outputs t).
Proof.
  unfold is_wallet_tx. rewrite orb_True, !resolving_Exists. reflexivity.
Qed.

Lemma owned_spec A network (x : nat * option Script) :
  owned toAddress A network x
  <-> exists script, x.2 = Some script /\ toAddress script network ∈ A.
Proof.
  unfold owned. destruct x as [l [script|]]; cbn.
  - rewrite existb_True, Exists_exists. split.
    + intros (a & Ha & Heq). exists script. split; [reflexivity|].
      apply Is_true_true, String.eqb_eq in Heq. now subst.
    + intros (? & [= <-] & Ha). exists (toAddress script network).
      split; [assumption|]. apply Is_true_true, String.eqb_refl.
  - split; [tauto|]. now intros (? & [=] & _).
Qed.

Lemma matched_sublist A network xs :
  matched toAddress A network xs `sublist_of` xs.*1.
Proof. unfold matched. apply fmap_sublist, sublist_filter. Qed.

Lemma spent_of_sublist A network T :
  spent_of toAddress A network T `sublist_of` (T ≫= (fun t => (tx_inputs t).*1)).
Proof.
  unfold spent_of. induction T as [|t T IH]; [constructor|]. cbn.
  apply sublist_app; [apply matched_sublist|exact IH].
Qed.

Lemma unspent_of_sublist A network T :
  unspent_of toAddress A network T `sublist_of` (T ≫= (fun t => (tx_outputs t).*1)).
Proof.
  unfold unspent_of. induction T as [|t T IH]; [constructor|]. cbn.
  apply sublist_app; [apply matched_sublist|exact IH].
Qed.

Lemma elem_of_matched A network xs l :
  l ∈ matched toAddress A network xs
  <-> exists x, x ∈ xs /\ x.1 = l /\ owned toAddress A network x.
Proof.
  unfold matched. rewrite list_elem_of_fmap. split.
  - intros (x & -> & [Hx Hin]%list_elem_of_filter). eauto.
  - intros (x & Hin & <- & Hx). exists x. split; [reflexivity|].
    apply list_elem_of_filter. auto.
Qed.

Lemma elem_of_spent_of A network T l :
  l ∈ spent_of toAddress A network T
  <-> exists t x, t ∈ T /\ x ∈ tx_inputs t /\ x.1 = l /\ owned toAddress A network x.
Proof.
  unfold spent_of. rewrite list_elem_of_bind. split.
  - intros (t & (x & ? & ? & ?)%elem_of_matched & ?). eauto 10.
  - intros (t & x & ? & ? & ? & ?). exists t. split; [|assumption].
    apply elem_of_matched. eauto.
Qed.

Lemma elem_of_unspent_of A network T l :
  l ∈ unspent_of toAddress A network T
  <-> exists t x, t ∈ T /\ x ∈ tx_outputs t /\ x.1 = l /\ owned toAddress A network x.
Proof.
  unfold unspent_of. rewrite list_elem_of_bind. split.
  - intros (t & (x & ? & ? & ?)%elem_of_matched & ?). eauto 10.
  - intros (t & x & ? & ? & ? & ?). exists t. split; [|assumption].
    apply elem_of_matched. eauto.
Qed.

Lemma elem_of_kept_of A network T l :
  l ∈ kept_of toAddress A network T
  <-> exists t, t ∈ T /\ tx_ref t = l /\ Is_true (is_wallet_tx toAddress A network t).
Proof.
  unfold kept_of. rewrite list_elem_of_fmap. split.
  - intros (t & -> & [Ht Hin]%list_elem_of_filter). eauto.
  - intros (t & Hin & <- & Ht). exists t. split; [reflexivity|].
    apply list_elem_of_filter. auto.
Qed.

(** C1, as amended.  On a store that holds the transactions [T] and the
    addresses [A], and when every output of every transaction has a script,
    [filterWalletTransactions] returns: as [transactions], the transactions
    of [T] with at least one input or output whose script resolves to an
    address of [A], in order; as [spentOutputs], the matched inputs of the
    transactions of [T], in order; as [unspentOutputs], the matched outputs.
    An input (an output) comes once for each time it occurs in [T]: the
    lists are free of duplicates when the inputs (the outputs) of [T] are
    pairwise distinct objects. *)
Theorem filterWalletTransactions_exact (h : Heap) transactions addressList network T A :
  view_transactions h transactions = Some T ->
  view_addresses h addressList = Some A ->
  every_output_has_script T = true ->
  observe (filterWalletTransactions toAddress transactions addressList network h)
  = Normal (Some
      {| m_transactions :=
           VRef <$> (tx_ref <$> filter (fun t => Is_true (is_wallet_tx toAddress A network t)) T);
         m_spentOutputs :=
           VRef <$> (T ≫= fun t => (filter (owned toAddress A network) (tx_inputs t)).*1);
         m_unspentOutputs :=
           VRef <$> (T ≫= fun t => (filter (owned toAddress A network) (tx_outputs t)).*1) |})
  /\ (forall t, Is_true (is_wallet_tx toAddress A network t)
        <-> Exists (owned toAddress A network) (tx_inputs t)
            \/ Exists (owned toAddress A network) (tx_outputs t))
  /\ (NoDup (T ≫= fun t => (tx_inputs t).*1) ->
      NoDup (VRef <$> (T ≫= fun t => (filter (owned toAddress A network) (tx_inputs t)).*1)))
  /\ (NoDup (T ≫= fun t => (tx_outputs t).*1) ->
      NoDup (VRef <$> (T ≫= fun t => (filter (owned toAddress A network) (tx_outputs t)).*1))).
Proof.
  intros HT HA Hscripts. repeat split.
  - rewrite (filterWalletTransactions_observe h _ _ network T A HT HA), Hscripts.
    reflexivity.
  - apply is_wallet_tx_spec.
  - apply is_wallet_tx_spec.
  - intros Hnd. apply (NoDup_fmap_2 VRef). eapply sublist_NoDup; [exact Hnd|].
    apply (spent_of_sublist A network T).
  - intros Hnd. apply (NoDup_fmap_2 VRef). eapply sublist_NoDup; [exact Hnd|].
    apply (unspent_of_sublist A network T).
Qed.

(** C5.  A run writes to no object that existed before it: the store it
    leaves is the store it found, followed by the objects it created; this
    holds for every argument, also when the run throws.  And what a run
    returns is decided by the transactions, the addresses and the network
    alone: two runs on stores that hold the same transactions and addresses
    are told apart by no caller. *)
Theorem filterWalletTransactions_pure :
  (forall transactions addressList network (h : Heap),
      h `prefix_of`
        final (filterWalletTransactions toAddress transactions addressList network h))
  /\ (forall (h1 h2 : Heap) t1 t2 a1 a2 network T A,
        view_transactions h1 t1 = Some T ->
        view_transactions h2 t2 = Some T ->
        view_addresses h1 a1 = Some A ->
        view_addresses h2 a2 = Some A ->
        observe (filterWalletTransactions toAddress t1 a1 network h1)
        = observe (filterWalletTransactions toAddress t2 a2 network h2)).
Proof.
  split.
  - intros transactions addressList network h.
    destruct (keeps_filterWalletTransactions h transactions addressList network [])
      as (ext & Hfinal & _).
    rewrite app_nil_r in Hfinal. rewrite Hfinal. now apply prefix_app_r.
  - intros h1 h2 t1 t2 a1 a2 network T A HT1 HT2 HA1 HA2.
    rewrite (filterWalletTransactions_observe h1 _ _ network T A HT1 HA1).
    rewrite (filterWalletTransactions_observe h2 _ _ network T A HT2 HA2).
    reflexivity.
Qed.

(** C8.  An input without a signature script is passed over: it raises no
    error (the run returns whenever the outputs have their scripts), it is
    never among [spentOutputs], and it never makes its transaction one of
    the wallet: a transaction of [T], whatever inputs without a script it
    contains, is retained exactly when one of its inputs that has a script
    resolves to an address of [A], or one of its outputs does. *)
Theorem filterWalletTransactions_skips_scriptless_inputs
    (h : Heap) transactions addressList network T A :
  view_transactions h transactions = Some T ->
  view_addresses h addressList = Some A ->
  every_output_has_script T = true ->
  exists m,
    observe (filterWalletTransactions toAddress transactions addressList network h)
    = Normal (Some m)
    /\ (forall t x, t ∈ T -> x ∈ tx_inputs t -> x.2 = None ->
          VRef x.1 ∉ m_spentOutputs m)
    /\ (forall t, t ∈ T ->
          (VRef (tx_ref t) ∈ m_transactions m
           <-> (exists x script,
                   x ∈ tx_inputs t /\ x.2 = Some script
                   /\ toAddress script network ∈ A)
               \/ (exists x script,
                      x ∈ tx_outputs t /\ x.2 = Some script
                      /\ toAddress script network ∈ A))).
Proof.
  intros HT HA Hscripts. eexists. split; [|split].
  - rewrite (filterWalletTransactions_observe h _ _ network T A HT HA), Hscripts.
    reflexivity.
  - cbn. intros t x Ht Hx Hnone Hin.
    apply view_transactions_Some in HT as (tl & -> & _ & Hin_h & _).
    apply list_elem_of_fmap in Hin as (l & [= Hl] & Hin).
    apply elem_of_spent_of in Hin as (t' & y & Ht' & Hy & Hyl & Hown).
    rewrite Forall_forall in Hin_h.
    destruct (Hin_h t Ht) as (? & ? & _ & _ & Hins & _).
    destruct (Hin_h t' Ht') as (? & ? & _ & _ & Hins' & _).
    unfold inputs_in in Hins, Hins'. rewrite Forall_forall in Hins, Hins'.
    specialize (Hins x Hx). specialize (Hins' y Hy).
    rewrite Hnone, Hl, <- Hyl, Hins' in Hins. injection Hins as Hy2.
    unfold owned in Hown. now rewrite Hy2 in Hown.
  - cbn. intros t Ht.
    apply view_transactions_Some in HT as (tl & -> & _ & _ & Hview).
    rewrite Forall_forall in Hview.
    assert (Hkept : VRef (tx_ref t) ∈ VRef <$> kept_of toAddress A network T
                    <-> Is_true (is_wallet_tx toAddress A network t)).
    { rewrite list_elem_of_fmap. split.
      - intros (l & [= Hl] & (t' & Ht' & Href & Hw)%elem_of_kept_of).
        pose proof (Hview t Ht) as Hv. pose proof (Hview t' Ht') as Hv'.
        rewrite Href, <- Hl, Hv in Hv'. now injection Hv' as <-.
      - intros Hw. exists (tx_ref t). split; [reflexivity|].
        apply elem_of_kept_of. eauto. }
    rewrite Hkept, is_wallet_tx_spec, !Exists_exists.
    split; (intros [(x & H)|(x & H)]; [left|right]).
    + destruct H as (Hx & (script & Hs & Ha)%owned_spec). eauto.
    + destruct H as (Hx & (script & Hs & Ha)%owned_spec). eauto.
    + destruct H as (script & Hx & Hs & Ha). exists x.
      split; [exact Hx|]. apply owned_spec. eauto.
    + destruct H as (script & Hx & Hs & Ha). exists x.
      split; [exact Hx|]. apply owned_spec. eauto.
Qed.

(** C9.  On a store that holds the transactions [T] and the addresses [A],
    a run returns exactly when every output of every transaction of [T] has
    a script; with one output lacking its script the run throws a
    TypeError. *)
Theorem filterWalletTransactions_needs_output_scripts
    (h : Heap) transactions addressList network T A :
  view_transactions h transactions = Some T ->
  view_addresses h addressList = Some A ->
  completion (filterWalletTransactions toAddress transactions addressList network h)
  = if every_output_has_script T
    then Normal (VRef (length h + 3))
    else Thrown TypeError.
Proof.
  intros (tl & -> & Htl & HT & _)%view_transactions_Some
         (al & -> & Hal)%view_addresses_Some.
  pose proof (filterWalletTransactions_run h tl al network T A Htl HT Hal) as Hrun.
  destruct (every_output_has_script T).
  - now rewrite Hrun.
  - destruct Hrun as [ext ->]. reflexivity.
Qed.

End MatcherFacts.

Lemma every_output_has_script_spec (T : list TxView) :
  every_output_has_script T = true
  <-> forall t x, t ∈ T -> x ∈ tx_outputs t -> is_Some x.2.
Proof.
  unfold every_output_has_script. rewrite forallb_forall. split.
  - intros H t x Ht%list_elem_of_In Hx%list_elem_of_In.
    specialize (H t Ht). rewrite forallb_forall in H. specialize (H x Hx).
    unfold has_script in H. destruct x.2; [eauto|discriminate].
  - intros H t Ht%list_elem_of_In. apply forallb_forall.
    intros x Hx%list_elem_of_In. destruct (H t x Ht Hx) as [s Hs].
    unfold has_script. now rewrite Hs.
Qed.

(** C1, as stated, fails where a transaction is listed twice: its matched
    input is then twice among [spentOutputs]. *)
Lemma filterWalletTransactions_repeats_input :
  exists m,
    observe (filterWalletTransactions sample_toAddress twice_transactions
               twice_addressList "testnet" twice_heap)
    = Normal (Some m)
    /\ m_spentOutputs m = [VRef 0; VRef 0]
    /\ ~ NoDup (m_spentOutputs m).
Proof.
  eexists. split; [reflexivity|]. split; [reflexivity|].
  cbn. intros Hnd. apply NoDup_cons in Hnd as [Hnotin _].
  apply Hnotin. constructor.
Qed.

(** The sample store: the payment is retained with its wallet input and its
    wallet output, the coinbase transaction is dropped. *)
Lemma filterWalletTransactions_exact_witness :
  observe (filterWalletTransactions sample_toAddress sample_transactions
             sample_addressList "testnet" sample_heap)
  = Normal (Some {| m_transactions := [VRef 6];
                    m_spentOutputs := [VRef 1];
                    m_unspentOutputs := [VRef 2] |})
  /\ NoDup [VRef 1] /\ NoDup [VRef 2].
Proof.
  destruct (filterWalletTransactions_exact sample_toAddress sample_heap
              sample_transactions sample_addressList "testnet" sample_T sample_A
              eq_refl eq_refl eq_refl)
    as (Hrun & _ & Hspent & Hunspent).
  split; [exact Hrun|]. split.
  - apply Hspent. cbn. apply (bool_decide_unpack _). reflexivity.
  - apply Hunspent. cbn. apply (bool_decide_unpack _). reflexivity.
Defined.

(** The sample transactions, listed by other arrays in a larger store, give
    the same result. *)
Lemma filterWalletTransactions_pure_witness :
  observe (filterWalletTransactions sample_toAddress sample_transactions
             sample_addressList "testnet" sample_heap)
  = observe (filterWalletTransactions sample_toAddress copied_transactions
               copied_addressList "testnet" copied_heap).
Proof.
  exact (proj2 (filterWalletTransactions_pure sample_toAddress)
           sample_heap copied_heap sample_transactions copied_transactions
           sample_addressList copied_addressList "testnet" sample_T sample_A
           eq_refl eq_refl eq_refl eq_refl).
Defined.

(** A transaction with an input that has a script of another wallet next
    to an input without a script: the run returns, the input without a
    script (cell 1) is not spent, and the transaction (cell 5) is not
    retained. *)
Lemma filterWalletTransactions_skips_scriptless_inputs_witness :
  exists m,
    observe (filterWalletTransactions sample_toAddress mixed_transactions
               mixed_addressList "testnet" mixed_heap)
    = Normal (Some m)
    /\ (VRef 1 ∉ m_spentOutputs m)
    /\ (VRef 5 ∉ m_transactions m).
Proof.
  destruct (filterWalletTransactions_skips_scriptless_inputs sample_toAddress
              mixed_heap mixed_transactions mixed_addressList "testnet"
              [mixed_transaction] ["testnet:aa"] eq_refl eq_refl eq_refl)
    as (m & Hrun & Hspent & Hkept).
  exists m. split; [exact Hrun|]. split.
  - apply (Hspent mixed_transaction (1, None)); [| |reflexivity].
    + constructor.
    + cbn. apply list_elem_of_further. constructor.
  - intros Hin. apply (Hkept mixed_transaction) in Hin; [|constructor].
    destruct Hin as [(x & script & Hx & Hs & Ha)|(x & script & Hx & Hs & Ha)];
      cbn in Hx; apply list_elem_of_singleton in Ha.
    + apply elem_of_cons in Hx as [->|Hx].
      * cbn in Hs. injection Hs as <-. discriminate Ha.
      * apply list_elem_of_singleton in Hx as ->. discriminate Hs.
    + apply list_elem_of_singleton in Hx as ->.
      cbn in Hs. injection Hs as <-. discriminate Ha.
Defined.

(** A transaction with an output without a script makes the run throw. *)
Lemma filterWalletTransactions_needs_output_scripts_witness :
  completion (filterWalletTransactions sample_toAddress scriptless_transactions
                scriptless_addressList "testnet" scriptless_heap)
  = Thrown TypeError.
Proof.
  exact (filterWalletTransactions_needs_output_scripts sample_toAddress
           scriptless_heap scriptless_transactions scriptless_addressList
           "testnet" _ _ eq_refl eq_refl).
Defined.

(** ** The checkpoint methods *)

(** The test of [getLastSyncedBlockHash]: "should correctly get last synced
    blockHash". *)
Example getLastSyncedBlockHash_mock :
  getLastSyncedBlockHash mock
  = Some "00000072edc9e031ff7aa3eb529511538c8a4899d5befea28848578e06c73313".
Proof. reflexivity. Qed.

(** Writing to the account of the worker changes that account and no other
    field of the worker. *)
Lemma write_account_Some (f : AccountStore -> AccountStore) (w : Worker) a :
  account_of w = Some a ->
  exists w',
    write_account f w = Some w'
    /\ account_of w' = Some (f a)
    /\ props w' = props w
    /\ syncIncomingTransactions w' = syncIncomingTransactions w
    /\ stream w' = stream w
    /\ incomingSyncPromise w' = incomingSyncPromise w
    /\ transport w' = transport w
    /\ network w' = network w.
Proof.
  unfold account_of, write_account.
  destruct (storage w) as [st|] eqn:Hst; [|discriminate].
  destruct (walletId w) as [wid|] eqn:Hwid; [|discriminate].
  destruct (index w) as [i|] eqn:Hi; [|discriminate]. cbn.
  destruct (wallets (store st) !! wid) as [ws|] eqn:Hws; [|discriminate]. cbn.
  intros Ha. rewrite Ha. cbn. eexists. split; [reflexivity|].
  cbn. rewrite Hwid, Hi. cbn. rewrite lookup_insert_eq. cbn.
  rewrite lookup_insert_eq. repeat split; reflexivity.
Qed.

Lemma update_account_run (f : AccountStore -> AccountStore) (world : World) a :
  account_of (self world) = Some a ->
  exists w',
    update_account f world = (Normal tt, {| self := w'; calls := calls world |})
    /\ account_of w' = Some (f a)
    /\ stream w' = stream (self world)
    /\ transport w' = transport (self world)
    /\ network w' = network (self world).
Proof.
  intros Ha.
  destruct (write_account_Some f (self world) a Ha)
    as (w' & Hw & Hacc & _ & _ & Hstream & _ & Htr & Hnet).
  exists w'. unfold update_account. rewrite Hw. auto.
Qed.

(** ** onStart *)

Section LifecycleFacts.

Variable startHistoricalSync : option string -> World -> Promise unit * World.

(** When [onStart] completes with a historical sync that has nothing to do,
    it has called it in the world it ends in, and it calls any other
    historical sync in that same world and awaits it. *)
Lemma onStart_reaches (world world1 : World) :
  onStart idle world = (Normal tt, world1) ->
  onStart startHistoricalSync world
  = (let* historicalSync := call (startHistoricalSync (network (self world1))) in
     await historicalSync) world1.
Proof.
  unfold onStart, bind, member, this, call, idle, await.
  destruct (storage (self world)) as [st|]; [|discriminate].
  destruct (syncOptions (store st) ≫= skipSynchronizationBeforeHeight)
    as [height|]; [destruct (height =? 0)%N|].
  - cbn. intros [= <-]. reflexivity.
  - destruct (transport (self world)) as [tr|]; [|discriminate].
    cbn.
    destruct (getBlockHeaderByHeight tr _) as [header|e|]; try discriminate.
    destruct (setLastSyncedBlockHeight _ _) as [[[]|e|] w1]; try discriminate.
    destruct (setLastSyncedBlockHash _ _) as [[[]|e|] w2]; try discriminate.
    intros [= <-]. reflexivity.
  - cbn. intros [= <-]. reflexivity.
Qed.

End LifecycleFacts.

(** C2, as amended.  When [skipSynchronizationBeforeHeight] is set to a
    height other than 0 and the transport answers with the header of that
    height, [onStart] calls [startHistoricalSync] in a world where the
    checkpoint of the account already holds that height and the hash of that
    header; until then the transport has only been asked for the header, and
    the stream handle is the one [onStart] found. *)
Theorem onStart_fast_forwards_checkpoint (world : World) st tr height header a :
  storage (self world) = Some st ->
  syncOptions (store st) ≫= skipSynchronizationBeforeHeight = Some height ->
  height <> 0%N ->
  transport (self world) = Some tr ->
  getBlockHeaderByHeight tr height = Fulfilled header ->
  account_of (self world) = Some a ->
  exists world1,
    (forall startHistoricalSync,
        onStart startHistoricalSync world
        = (let* historicalSync :=
             call (startHistoricalSync (network (self world1))) in
           await historicalSync) world1)
    /\ getLastSyncedBlockHeight (self world1) = Some height
    /\ getLastSyncedBlockHash (self world1) = Some (hash header)
    /\ stream (self world1) = stream (self world)
    /\ calls world1 = calls world ++ [CallGetBlockHeaderByHeight height].
Proof.
  intros Hst Hskip Hne Htr Hheader Ha.
  pose (asked := {| self := self world;
                    calls := calls world ++ [CallGetBlockHeaderByHeight height] |}).
  destruct (update_account_run
              (fun a => {| label := label a; accountNetwork := accountNetwork a;
                           blockHeight := height; blockHash := blockHash a |})
              asked a Ha)
    as (w1 & Hrun1 & Ha1 & Hstream1 & Htr1 & Hnet1).
  destruct (update_account_run
              (fun a => {| label := label a; accountNetwork := accountNetwork a;
                           blockHeight := blockHeight a; blockHash := hash header |})
              {| self := w1; calls := calls asked |} _ Ha1)
    as (w2 & Hrun2 & Ha2 & Hstream2 & Htr2 & Hnet2).
  exists {| self := w2; calls := calls asked |}.
  split; [|repeat split].
  - intros startHistoricalSync. apply onStart_reaches.
    unfold onStart, bind, member, this, call, idle, await, record.
    rewrite Hst, Hskip.
    apply N.eqb_neq in Hne. rewrite Hne.
    rewrite Htr, Hheader.
    unfold setLastSyncedBlockHeight, setLastSyncedBlockHash.
    fold asked. rewrite Hrun1, Hrun2. reflexivity.
  - unfold getLastSyncedBlockHeight. cbn. now rewrite Ha2.
  - unfold getLastSyncedBlockHash. cbn. now rewrite Ha2.
  - cbn in *. now rewrite Hstream2, Hstream1.
Qed.

(** C2, as stated, fails for a configured height of 0: the guard of
    [onStart] takes 0 for "not set", the transport is not asked for a header
    and the checkpoint stays where it was. *)
Lemma onStart_ignores_height_zero :
  (storage (sample_worker (Some 0%N))
     ≫= fun st => syncOptions (store st) ≫= skipSynchronizationBeforeHeight)
  = Some 0%N
  /\ completion (onStart idle (sample_world (Some 0%N))) = Normal tt
  /\ getLastSyncedBlockHeight (self (final (onStart idle (sample_world (Some 0%N)))))
     = Some 120000%N
  /\ getLastSyncedBlockHash (self (final (onStart idle (sample_world (Some 0%N)))))
     = Some "000000aa"
  /\ calls (final (onStart idle (sample_world (Some 0%N)))) = [].
Proof. repeat split; reflexivity. Qed.

(** The scenario of the spec: configured to skip what lies before block
    458971, the worker calls the historical sync with its checkpoint at
    that block. *)
Lemma onStart_fast_forwards_checkpoint_witness :
  exists world1,
    onStart failing (sample_world (Some 458971%N))
    = (let* historicalSync := call (failing (network (self world1))) in
       await historicalSync) world1
    /\ getLastSyncedBlockHeight (self world1) = Some 458971%N
    /\ getLastSyncedBlockHash (self world1)
       = Some "00000072edc9e031ff7aa3eb529511538c8a4899d5befea28848578e06c73313"
    /\ stream (self world1) = Some (StreamHandle 1)
    /\ calls world1 = [CallGetBlockHeaderByHeight 458971].
Proof.
  destruct (onStart_fast_forwards_checkpoint (sample_world (Some 458971%N))
              _ sample_transport 458971%N _ stale_account
              eq_refl eq_refl ltac:(discriminate) eq_refl eq_refl eq_refl)
    as (world1 & Hcall & Hheight & Hhash & Hstream & Hcalls).
  exists world1. repeat split; try assumption. apply Hcall.
Defined.

(** C4.  [onStart] awaits the historical sync and catches nothing: when it
    gets as far as calling [startHistoricalSync] (in the world [world1] in
    which it would end with a historical sync that has nothing to do) and
    the promise of that call is rejected with [e], [onStart] itself throws
    [e], in the world the historical sync left. *)
Theorem onStart_propagates_historical_failure
    (startHistoricalSync : option string -> World -> Promise unit * World)
    (world world1 world2 : World) (e : Error) :
  onStart idle world = (Normal tt, world1) ->
  startHistoricalSync (network (self world1)) world1 = (Rejected e, world2) ->
  onStart startHistoricalSync world = (Thrown e, world2).
Proof.
  intros Hreach Hfail. rewrite (onStart_reaches _ _ _ Hreach).
  unfold bind, call. rewrite Hfail. reflexivity.
Qed.

(** A historical sync that fails on a merkle proof fails the start. *)
Lemma onStart_propagates_historical_failure_witness :
  completion (onStart failing (sample_world (Some 458971%N)))
  = Thrown (Failure "merkle proof mismatch").
Proof.
  exact (f_equal fst
           (onStart_propagates_historical_failure failing
              (sample_world (Some 458971%N)) _ _ _ eq_refl eq_refl)).
Defined.

(** The other completions of the awaited promise: [onStart] returns when the
    historical sync is done, and not before. *)
Lemma onStart_awaits_historical_sync
    (startHistoricalSync : option string -> World -> Promise unit * World)
    (world world1 world2 : World) (p : Promise unit) :
  onStart idle world = (Normal tt, world1) ->
  startHistoricalSync (network (self world1)) world1 = (p, world2) ->
  onStart startHistoricalSync world
  = (match p with
     | Fulfilled _ => Normal tt
     | Rejected e => Thrown e
     | Pending => Suspended
     end, world2).
Proof.
  intros Hreach Hcall. rewrite (onStart_reaches _ _ _ Hreach).
  unfold bind, call, await. rewrite Hcall. now destruct p as [[]| |].
Qed.

(** ** execute *)

(** C7.  [execute] sets [syncIncomingTransactions], calls
    [startIncomingSync] with the flag set, stores the promise it gets in
    [incomingSyncPromise] and returns: it completes whatever becomes of that
    promise, also when the promise never settles. *)
Theorem execute_does_not_wait
    (startIncomingSync : World -> Promise unit * World)
    (world world1 : World) (incomingSync : Promise unit) :
  startIncomingSync
    {| self := with_syncIncomingTransactions true (self world);
       calls := calls world |}
  = (incomingSync, world1) ->
  syncIncomingTransactions (with_syncIncomingTransactions true (self world)) = true
  /\ completion (execute startIncomingSync world) = Normal tt
  /\ incomingSyncPromise (self (final (execute startIncomingSync world)))
     = Some incomingSync
  /\ final (execute startIncomingSync world)
     = {| self := with_incomingSyncPromise (Some incomingSync) (self world1);
          calls := calls world1 |}.
Proof.
  intros Hcall. unfold execute, bind, assign, call. cbn [fst snd self calls].
  rewrite Hcall. repeat split.
Qed.

(** An incoming sync that never ends does not hold [execute] back. *)
Lemma execute_does_not_wait_witness :
  completion (execute endless (sample_world None)) = Normal tt
  /\ incomingSyncPromise (self (final (execute endless (sample_world None))))
     = Some Pending.
Proof.
  destruct (execute_does_not_wait endless (sample_world None) _ _ eq_refl)
    as (_ & Hdone & Hpromise & _).
  split; [exact Hdone|exact Hpromise].
Defined.

(** ** onStop *)

(** C3.  [onStop] clears [syncIncomingTransactions]; with a stream at hand
    it calls [cancel] on that stream once and leaves the handle null, in one
    step that nothing interrupts; without a stream it calls nothing. *)
Theorem onStop_cancels_stream (world : World) :
  completion (onStop world) = Normal tt
  /\ syncIncomingTransactions (self (final (onStop world))) = false
  /\ stream (self (final (onStop world))) = None
  /\ calls (final (onStop world))
     = calls world
         ++ match stream (self world) with
            | Some s => [CallCancel s]
            | None => []
            end.
Proof.
  unfold onStop, bind, assign, this, record, ret.
  cbn [fst snd self calls with_syncIncomingTransactions stream].
  destruct (stream (self world)) as [s|] eqn:Hs; cbn.
  - repeat split.
  - rewrite Hs, app_nil_r. repeat split.
Qed.

(** C10.  [onStop] leaves every field of the worker but
    [syncIncomingTransactions] and [stream] as it was, the storage and the
    checkpoint it holds among them. *)
Theorem onStop_frame (world : World) :
  let stopped := self (final (onStop world)) in
  props stopped = props (self world)
  /\ incomingSyncPromise stopped = incomingSyncPromise (self world)
  /\ storage stopped = storage (self world)
  /\ transport stopped = transport (self world)
  /\ network stopped = network (self world)
  /\ walletId stopped = walletId (self world)
  /\ index stopped = index (self world)
  /\ walletType stopped = walletType (self world)
  /\ getLastSyncedBlockHeight stopped = getLastSyncedBlockHeight (self world)
  /\ getLastSyncedBlockHash stopped = getLastSyncedBlockHash (self world).
Proof.
  unfold onStop, bind, assign, this, record, ret.
  cbn [fst snd self calls with_syncIncomingTransactions stream].
  destruct (stream (self world)) as [s|]; cbn; repeat split.
Qed.

(** ** constructor *)

Lemma defaults_gapLimit : defaults !! "gapLimit" = Some (JNumber 10).
Proof. reflexivity. Qed.

(** C6.  The options handed to the base class, and so the worker, hold the
    [gapLimit] of the caller's options when these have one, and 10
    otherwise. *)
Theorem constructor_gapLimit (options : option (gmap string JSValue)) :
  gapLimit (constructor options)
  = Some (default (JNumber 10) (options ≫= fun o => o !! "gapLimit")).
Proof.
  unfold gapLimit, constructor, Worker_super, spread. cbn [props
    with_incomingSyncPromise with_stream with_syncIncomingTransactions].
  rewrite lookup_union, defaults_gapLimit.
  destruct options as [o|]; cbn.
  - destruct (o !! "gapLimit"); reflexivity.
  - rewrite lookup_empty. reflexivity.
Qed.

Example constructor_default_gapLimit :
  gapLimit (constructor None) = Some (JNumber 10)
  /\ gapLimit (constructor (Some ∅)) = Some (JNumber 10)
  /\ gapLimit (constructor (Some {[ "workerIntervalTime" := JNumber 5 ]}))
     = Some (JNumber 10).
Proof. repeat split; reflexivity. Qed.

Example constructor_given_gapLimit :
  gapLimit (constructor (Some {[ "gapLimit" := JNumber 20 ]})) = Some (JNumber 20).
Proof. reflexivity. Qed.

(** A key spelled out with the value undefined is a key all the same. *)
Example constructor_undefined_gapLimit :
  gapLimit (constructor (Some {[ "gapLimit" := JUndefined ]})) = Some JUndefined.
Proof. reflexivity. Qed.

Example constructor_fields (options : option (gmap string JSValue)) :
  syncIncomingTransactions (constructor options) = false
  /\ stream (constructor options) = None
  /\ incomingSyncPromise (constructor options) = None.
Proof. repeat split. Qed.

(** * More facts *)

(** ** Reading a stream response *)

Section StreamResponseFacts.

Context {T : Type} (construct : list Byte.byte -> Error + T).

Lemma map_new_Normal raws ts :
  map_new construct raws = Normal ts
  <-> Forall2 (fun raw t => construct raw = inr t) raws ts.
Proof.
  revert ts. induction raws as [|raw raws IH]; intros ts; cbn.
  - split.
    + intros [= <-]. constructor.
    + intros H. inversion H. reflexivity.
  - destruct (construct raw) as [e|t] eqn:Hraw.
    + split; [discriminate|]. intros H. inversion H; congruence.
    + destruct (map_new construct raws) as [ts'| |] eqn:Hrest.
      * split.
        -- intros [= <-]. constructor; [assumption|]. now apply IH.
        -- intros H. inversion H as [|? t' ? ts'' Ht Hts]; subst.
           apply IH in Hts. congruence.
      * split; [discriminate|]. intros H.
        inversion H as [|? t' ? ts'' Ht Hts]; subst.
        apply IH in Hts. discriminate.
      * split; [discriminate|]. intros H.
        inversion H as [|? t' ? ts'' Ht Hts]; subst.
        apply IH in Hts. discriminate.
Qed.

Lemma map_new_not_Suspended raws : map_new construct raws <> Suspended.
Proof.
  induction raws as [|raw raws IH]; cbn; [discriminate|].
  destruct (construct raw); [discriminate|].
  destruct (map_new construct raws); [discriminate|discriminate|contradiction].
Qed.

Lemma map_new_Thrown raws e :
  map_new construct raws = Thrown e
  <-> exists good bad rest,
        raws = good ++ bad :: rest
        /\ Forall (fun raw => exists t, construct raw = inr t) good
        /\ construct bad = inl e.
Proof.
  induction raws as [|raw raws IH]; cbn.
  - split; [discriminate|]. intros (good & bad & rest & H & _).
    now destruct good.
  - destruct (construct raw) as [e'|t] eqn:Hraw.
    + split.
      * intros [= <-]. exists [], raw, raws. repeat split; [constructor|assumption].
      * intros ([|g good] & bad & rest & [= -> ->] & Hgood & Hbad).
        -- congruence.
        -- inversion Hgood as [|? ? [t Ht] _]; subst. congruence.
    + assert (Hstep :
        (exists good bad rest,
            raw :: raws = good ++ bad :: rest
            /\ Forall (fun raw => exists t, construct raw = inr t) good
            /\ construct bad = inl e)
        <-> map_new construct raws = Thrown e).
      { rewrite IH. split.
        - intros ([|g good] & bad & rest & [= -> ->] & Hgood & Hbad); [congruence|].
          inversion Hgood; subst. eauto 10.
        - intros (good & bad & rest & -> & Hgood & Hbad).
          exists (raw :: good), bad, rest. repeat split; [|assumption].
          constructor; eauto. }
      rewrite Hstep.
      destruct (map_new construct raws) as [ts|e'|]; split;
        try discriminate; congruence.
Qed.

End StreamResponseFacts.

Section StreamResponseContract.

Variables MerkleBlock Transaction InstantLock : Type.
Variable new_MerkleBlock : list Byte.byte -> Error + MerkleBlock.
Variable new_Transaction : list Byte.byte -> Error + Transaction.
Variable new_InstantLock : list Byte.byte -> Error + InstantLock.

(** X12.  [getTransactionListFromStreamResponse] decodes all the raw
    transactions of the response or none: it returns a list exactly when
    every raw transaction decodes, and the list then holds the decoded
    transactions one for one, in the order of the response; it throws [e]
    exactly when [e] is what the constructor throws at the first raw
    transaction that does not decode.  A response without a transactions
    message counts as one with no raw transaction. *)
Theorem getTransactionListFromStreamResponse_all_or_nothing (response : StreamResponse) :
  (forall ts,
      getTransactionListFromStreamResponse Transaction new_Transaction response
      = Normal ts
      <-> Forall2 (fun raw t => new_Transaction raw = inr t)
            (raw_transactions response) ts)
  /\ (forall e,
        getTransactionListFromStreamResponse Transaction new_Transaction response
        = Thrown e
        <-> exists good bad rest,
              raw_transactions response = good ++ bad :: rest
              /\ Forall (fun raw => exists t, new_Transaction raw = inr t) good
              /\ new_Transaction bad = inl e).
Proof.
  unfold getTransactionListFromStreamResponse, raw_transactions.
  destruct (getRawTransactions response) as [transactions|]; cbn.
  - split; intros; [apply map_new_Normal|apply map_new_Thrown].
  - split.
    + intros ts. rewrite <- (map_new_Normal new_Transaction [] ts). reflexivity.
    + intros e. rewrite <- (map_new_Thrown new_Transaction [] e). reflexivity.
Qed.

(** X13.  [getInstantSendLocksFromResponse] decodes all the instant lock
    messages of the response or none, in the same way. *)
Theorem getInstantSendLocksFromResponse_all_or_nothing (response : StreamResponse) :
  (forall locks,
      getInstantSendLocksFromResponse InstantLock new_InstantLock response
      = Normal locks
      <-> Forall2 (fun raw lock => new_InstantLock raw = inr lock)
            (raw_instant_locks response) locks)
  /\ (forall e,
        getInstantSendLocksFromResponse InstantLock new_InstantLock response
        = Thrown e
        <-> exists good bad rest,
              raw_instant_locks response = good ++ bad :: rest
              /\ Forall (fun raw => exists lock, new_InstantLock raw = inr lock) good
              /\ new_InstantLock bad = inl e).
Proof.
  unfold getInstantSendLocksFromResponse, raw_instant_locks.
  destruct (getInstantSendLockMessages response) as [messages|]; cbn.
  - split; intros; [apply map_new_Normal|apply map_new_Thrown].
  - split.
    + intros locks. rewrite <- (map_new_Normal new_InstantLock [] locks). reflexivity.
    + intros e. rewrite <- (map_new_Thrown new_InstantLock [] e). reflexivity.
Qed.

(** X14.  [getMerkleBlockFromStreamResponse] returns null exactly for a
    response without a raw merkle block; with one, it returns the decoded
    block or throws what the constructor throws, and never null. *)
Theorem getMerkleBlockFromStreamResponse_null_iff_absent (response : StreamResponse) :
  (getMerkleBlockFromStreamResponse MerkleBlock new_MerkleBlock response
   = Normal None
   <-> getRawMerkleBlock response = None)
  /\ (forall raw, getRawMerkleBlock response = Some raw ->
        getMerkleBlockFromStreamResponse MerkleBlock new_MerkleBlock response
        = match new_MerkleBlock raw with
          | inl e => Thrown e
          | inr merkleBlock => Normal (Some merkleBlock)
          end).
Proof.
  unfold getMerkleBlockFromStreamResponse.
  destruct (getRawMerkleBlock response) as [raw|]; split.
  - destruct (new_MerkleBlock raw); split; discriminate.
  - now intros ? [= <-].
  - split; reflexivity.
  - discriminate.
Qed.

End StreamResponseContract.

(** The sample response: its two raw transactions decode; its second
    instant lock message, an empty one, does not. *)
Lemma getTransactionListFromStreamResponse_all_or_nothing_witness :
  getTransactionListFromStreamResponse _ sample_new sample_response
  = Normal [[Byte.x01; Byte.x02]; [Byte.x03]].
Proof.
  apply (proj1 (getTransactionListFromStreamResponse_all_or_nothing
                  _ sample_new sample_response)).
  repeat constructor.
Defined.

Lemma getInstantSendLocksFromResponse_all_or_nothing_witness :
  getInstantSendLocksFromResponse _ sample_new sample_response
  = Thrown (Failure "empty buffer").
Proof.
  apply (proj2 (getInstantSendLocksFromResponse_all_or_nothing
                  _ sample_new sample_response)).
  exists [[Byte.x04]], [], [[Byte.x05]].
  split; [reflexivity|]. split; [|reflexivity].
  constructor; [|constructor]. now exists [Byte.x04].
Defined.

Lemma getMerkleBlockFromStreamResponse_null_iff_absent_witness :
  getMerkleBlockFromStreamResponse _ sample_new sample_response = Normal None.
Proof.
  apply (proj1 (getMerkleBlockFromStreamResponse_null_iff_absent
                  _ sample_new sample_response)).
  reflexivity.
Defined.

(** ** More on the matcher *)

(** What a store holds is still read from it after it has grown. *)
Lemma view_array_old (h ext : Heap) v xs :
  view_array h v = Some xs -> view_array (h ++ ext) v = Some xs.
Proof.
  intros (l & -> & Hl)%view_array_Some. cbn.
  now rewrite (lookup_old _ ext _ _ Hl).
Qed.

Lemma view_input_old (h ext : Heap) v x :
  view_input h v = Some x -> view_input (h ++ ext) v = Some x.
Proof.
  destruct v as [|l]; [discriminate|]. cbn.
  destruct (h !! l) as [o|] eqn:Hl; [|discriminate].
  now rewrite (lookup_old _ ext _ _ Hl).
Qed.

Lemma view_output_old (h ext : Heap) v x :
  view_output h v = Some x -> view_output (h ++ ext) v = Some x.
Proof.
  destruct v as [|l]; [discriminate|]. cbn.
  destruct (h !! l) as [o|] eqn:Hl; [|discriminate].
  now rewrite (lookup_old _ ext _ _ Hl).
Qed.

Lemma mapM_old {A B : Type} (f g : A -> option B) xs ys :
  (forall x y, f x = Some y -> g x = Some y) ->
  mapM f xs = Some ys -> mapM g xs = Some ys.
Proof.
  intros Hfg H%mapM_Some_1. apply mapM_Some_2.
  eapply Forall2_impl; [exact H|]. exact Hfg.
Qed.

Lemma view_transaction_old (h ext : Heap) v t :
  view_transaction h v = Some t -> view_transaction (h ++ ext) v = Some t.
Proof.
  destruct v as [|l]; [discriminate|]. cbn.
  destruct (h !! l) as [[| |ins outs| |]|] eqn:Hl; try discriminate.
  rewrite (lookup_old _ ext _ _ Hl).
  destruct (view_array h ins) as [xs|] eqn:Hxs; [|discriminate]. cbn.
  destruct (mapM (view_input h) xs) as [inputs|] eqn:Hinputs; [|discriminate]. cbn.
  destruct (view_array h outs) as [ys|] eqn:Hys; [|discriminate]. cbn.
  destruct (mapM (view_output h) ys) as [outputs|] eqn:Houtputs; [|discriminate]. cbn.
  intros [= <-].
  rewrite (view_array_old _ ext _ _ Hxs). cbn.
  rewrite (mapM_old _ (view_input (h ++ ext)) _ _ (view_input_old h ext) Hinputs). cbn.
  rewrite (view_array_old _ ext _ _ Hys). cbn.
  rewrite (mapM_old _ (view_output (h ++ ext)) _ _ (view_output_old h ext) Houtputs).
  reflexivity.
Qed.

Lemma view_addresses_old (h ext : Heap) v A :
  view_addresses h v = Some A -> view_addresses (h ++ ext) v = Some A.
Proof.
  unfold view_addresses.
  destruct (view_array h v) as [xs|] eqn:Hxs; [|discriminate]. cbn.
  intros HA. now rewrite (view_array_old _ ext _ _ Hxs).
Qed.

(** An object of the store is one input, with one script. *)
Lemma tx_in_input (h : Heap) t x :
  tx_in h t -> x ∈ tx_inputs t -> h !! x.1 = Some (OInput x.2).
Proof.
  intros (? & ? & _ & _ & Hins & _) Hx.
  unfold inputs_in in Hins. rewrite Forall_forall in Hins. now apply Hins.
Qed.

Lemma tx_in_output (h : Heap) t x :
  tx_in h t -> x ∈ tx_outputs t -> h !! x.1 = Some (OOutput x.2).
Proof.
  intros (? & ? & _ & _ & _ & _ & Houts) Hx.
  unfold outputs_in in Houts. rewrite Forall_forall in Houts. now apply Houts.
Qed.

Lemma filter_sublist_impl {A : Type} (P Q : A -> Prop)
    `{!forall x, Decision (P x)} `{!forall x, Decision (Q x)} (l : list A) :
  (forall x, P x -> Q x) -> filter P l `sublist_of` filter Q l.
Proof.
  intros HPQ. induction l as [|x l IH]; [constructor|].
  rewrite !filter_cons.
  destruct (decide (P x)) as [HP|HP], (decide (Q x)) as [HQ|HQ].
  - now apply sublist_skip.
  - now apply HPQ in HP.
  - now apply sublist_cons.
  - exact IH.
Qed.

Lemma every_output_has_script_app T1 T2 :
  every_output_has_script (T1 ++ T2)
  = every_output_has_script T1 && every_output_has_script T2.
Proof. unfold every_output_has_script. apply forallb_app. Qed.

Lemma every_output_has_script_filter (P : TxView -> Prop)
    `{!forall t, Decision (P t)} T :
  every_output_has_script T = true ->
  every_output_has_script (filter P T) = true.
Proof.
  unfold every_output_has_script. rewrite !forallb_forall.
  intros Hall t Ht. apply Hall. apply list_elem_of_In.
  apply list_elem_of_In in Ht. now apply list_elem_of_filter in Ht as [_ Ht].
Qed.

Section MatcherMore.

Variable toAddress : Script -> string -> string.

Lemma matched_none A network xs :
  resolving toAddress A network xs = false -> matched toAddress A network xs = [].
Proof.
  unfold resolving. induction xs as [|x xs IH]; [reflexivity|].
  cbn [existsb]. intros [Hx Hxs]%orb_false_elim.
  rewrite matched_cons, Hx. now apply IH.
Qed.

Lemma resolving_nil network xs : resolving toAddress [] network xs = false.
Proof.
  unfold resolving. induction xs as [|[l [s|]] xs IH]; cbn; auto.
Qed.

Lemma nothing_owned A network T :
  Forall (fun t => is_wallet_tx toAddress A network t = false) T ->
  kept_of toAddress A network T = []
  /\ spent_of toAddress A network T = []
  /\ unspent_of toAddress A network T = [].
Proof.
  induction 1 as [|t T Ht _ (IHk & IHs & IHu)]; [repeat split|].
  rewrite kept_of_cons, Ht.
  unfold is_wallet_tx in Ht. apply orb_false_elim in Ht as [Hin Hout].
  unfold spent_of, unspent_of in *. cbn.
  rewrite (matched_none _ _ _ Hin), (matched_none _ _ _ Hout).
  repeat split; assumption.
Qed.

(** X1.  With nothing to match the three lists come back empty: for an
    empty address list, and for transactions (none, for one) of which no
    input and no output resolves to an address of the list. *)
Theorem filterWalletTransactions_nothing_to_match
    (h : Heap) transactions addressList network T A :
  view_transactions h transactions = Some T ->
  view_addresses h addressList = Some A ->
  every_output_has_script T = true ->
  A = [] \/ Forall (fun t => is_wallet_tx toAddress A network t = false) T ->
  observe (filterWalletTransactions toAddress transactions addressList network h)
  = Normal (Some {| m_transactions := []; m_spentOutputs := [];
                    m_unspentOutputs := [] |}).
Proof.
  intros HT HA Hscripts Hnone.
  rewrite (filterWalletTransactions_observe toAddress h _ _ network T A HT HA),
    Hscripts.
  assert (Forall (fun t => is_wallet_tx toAddress A network t = false) T) as Hall.
  { destruct Hnone as [->|Hall]; [|exact Hall].
    apply Forall_forall. intros t _. unfold is_wallet_tx.
    now rewrite !resolving_nil. }
  destruct (nothing_owned A network T Hall) as (-> & -> & ->). reflexivity.
Qed.

Lemma owned_mono A1 A2 network (x : nat * option Script) :
  A1 ⊆ A2 -> owned toAddress A1 network x -> owned toAddress A2 network x.
Proof.
  intros Hsub (script & Hs & Hin)%owned_spec. apply owned_spec.
  exists script. split; [assumption|]. now apply Hsub.
Qed.

Lemma is_wallet_tx_mono A1 A2 network t :
  A1 ⊆ A2 ->
  Is_true (is_wallet_tx toAddress A1 network t) ->
  Is_true (is_wallet_tx toAddress A2 network t).
Proof.
  intros Hsub. rewrite !is_wallet_tx_spec.
  intros [H|H]; [left|right];
    (eapply Exists_impl; [exact H|]); intros x; now apply owned_mono.
Qed.

Lemma matched_mono A1 A2 network xs :
  A1 ⊆ A2 ->
  matched toAddress A1 network xs `sublist_of` matched toAddress A2 network xs.
Proof.
  intros Hsub. unfold matched. apply fmap_sublist, filter_sublist_impl.
  intros x. now apply owned_mono.
Qed.

(** X2.  A longer address list never loses a match: with every address of
    [A1] also in [A2], what is returned for [A1] is, list by list, a sublist
    of what is returned for [A2]. *)
Theorem filterWalletTransactions_monotone
    (h : Heap) transactions list1 list2 network T A1 A2 :
  view_transactions h transactions = Some T ->
  view_addresses h list1 = Some A1 ->
  view_addresses h list2 = Some A2 ->
  every_output_has_script T = true ->
  A1 ⊆ A2 ->
  exists m1 m2,
    observe (filterWalletTransactions toAddress transactions list1 network h)
    = Normal (Some m1)
    /\ observe (filterWalletTransactions toAddress transactions list2 network h)
       = Normal (Some m2)
    /\ m_transactions m1 `sublist_of` m_transactions m2
    /\ m_spentOutputs m1 `sublist_of` m_spentOutputs m2
    /\ m_unspentOutputs m1 `sublist_of` m_unspentOutputs m2.
Proof.
  intros HT HA1 HA2 Hscripts Hsub. eexists _, _.
  rewrite (filterWalletTransactions_observe toAddress h _ _ network T A1 HT HA1).
  rewrite (filterWalletTransactions_observe toAddress h _ _ network T A2 HT HA2).
  rewrite Hscripts. split; [reflexivity|]. split; [reflexivity|]. cbn.
  repeat split; apply fmap_sublist.
  - unfold kept_of. apply fmap_sublist, filter_sublist_impl.
    intros t. now apply is_wallet_tx_mono.
  - unfold spent_of. clear HT Hscripts.
    induction T as [|t T IH]; [constructor|]. cbn.
    apply sublist_app; [now apply matched_mono|exact IH].
  - unfold unspent_of. clear HT Hscripts.
    induction T as [|t T IH]; [constructor|]. cbn.
    apply sublist_app; [now apply matched_mono|exact IH].
Qed.

(** X3.  A batch can be cut in two: the lists returned for the
    transactions [T1 ++ T2] are the lists returned for [T1] followed by the
    lists returned for [T2]. *)
Theorem filterWalletTransactions_batches
    (h : Heap) whole first second addressList network T1 T2 A :
  view_transactions h whole = Some (T1 ++ T2) ->
  view_transactions h first = Some T1 ->
  view_transactions h second = Some T2 ->
  view_addresses h addressList = Some A ->
  every_output_has_script (T1 ++ T2) = true ->
  exists m1 m2,
    observe (filterWalletTransactions toAddress first addressList network h)
    = Normal (Some m1)
    /\ observe (filterWalletTransactions toAddress second addressList network h)
       = Normal (Some m2)
    /\ observe (filterWalletTransactions toAddress whole addressList network h)
       = Normal (Some
           {| m_transactions := m_transactions m1 ++ m_transactions m2;
              m_spentOutputs := m_spentOutputs m1 ++ m_spentOutputs m2;
              m_unspentOutputs := m_unspentOutputs m1 ++ m_unspentOutputs m2 |}).
Proof.
  intros HT HT1 HT2 HA Hscripts. eexists _, _.
  rewrite (filterWalletTransactions_observe toAddress h _ _ network _ A HT HA).
  rewrite (filterWalletTransactions_observe toAddress h _ _ network _ A HT1 HA).
  rewrite (filterWalletTransactions_observe toAddress h _ _ network _ A HT2 HA).
  rewrite Hscripts.
  rewrite every_output_has_script_app in Hscripts.
  apply andb_true_iff in Hscripts as [-> ->].
  split; [reflexivity|]. split; [reflexivity|]. cbn.
  unfold kept_of, spent_of, unspent_of.
  now rewrite filter_app, !bind_app, !fmap_app.
Qed.

Lemma filtered_lists A network T :
  let kept := filter (fun t => Is_true (is_wallet_tx toAddress A network t)) T in
  kept_of toAddress A network kept = kept_of toAddress A network T
  /\ spent_of toAddress A network kept = spent_of toAddress A network T
  /\ unspent_of toAddress A network kept = unspent_of toAddress A network T.
Proof.
  cbn zeta. induction T as [|t T (IHk & IHs & IHu)]; [repeat split|].
  rewrite filter_cons.
  destruct (decide (Is_true (is_wallet_tx toAddress A network t))) as [Ht|Ht].
  - apply Is_true_true in Ht. rewrite !kept_of_cons, Ht, IHk.
    unfold spent_of, unspent_of in *. cbn.
    now rewrite IHs, IHu.
  - apply Is_true_false in Ht. rewrite kept_of_cons, Ht.
    unfold is_wallet_tx in Ht. apply orb_false_elim in Ht as [Hin Hout].
    unfold spent_of, unspent_of in *. cbn.
    rewrite (matched_none _ _ _ Hin), (matched_none _ _ _ Hout).
    repeat split; assumption.
Qed.

(** X4.  Filtering is idempotent: the [transactions] array of the returned
    object, filtered again against the same addresses in the store the first
    run left, gives the same three lists. *)
Theorem filterWalletTransactions_idempotent
    (h h' : Heap) transactions addressList network T A r :
  view_transactions h transactions = Some T ->
  view_addresses h addressList = Some A ->
  filterWalletTransactions toAddress transactions addressList network h
  = (Normal r, h') ->
  exists kept m,
    match_transactions h' r = Some kept
    /\ view_match h' r = Some m
    /\ observe (filterWalletTransactions toAddress kept addressList network h')
       = Normal (Some m).
Proof.
  intros HT HA Hrun.
  pose proof HT as (tl & -> & Htl & Hin & Hviews)%view_transactions_Some.
  pose proof HA as (al & -> & Hal)%view_addresses_Some.
  pose proof (filterWalletTransactions_run toAddress h tl al network T A Htl Hin Hal)
    as Hrun'.
  destruct (every_output_has_script T) eqn:Hscripts.
  2:{ destruct Hrun' as [ext Hrun']. rewrite Hrun' in Hrun. discriminate. }
  rewrite Hrun' in Hrun. injection Hrun as <- <-.
  set (P := fun t => Is_true (is_wallet_tx toAddress A network t)).
  exists (VRef (length h + 2)). eexists. split; [|split].
  - unfold match_transactions, scratch.
    rewrite lookup_app_r by lia.
    replace (length h + 3 - length h) with 3 by lia. reflexivity.
  - apply view_match_run.
  - assert (HT' : view_transactions
                    (h ++ scratch (VRef <$> spent_of toAddress A network T)
                            (VRef <$> unspent_of toAddress A network T)
                            (VRef <$> kept_of toAddress A network T)
                       ++ [OMatch (VRef (length h + 2)) (VRef (length h))
                             (VRef (length h + 1))])
                    (VRef (length h + 2))
                  = Some (filter P T)).
    { assert (Hcell : forall so uo ft o,
                (h ++ scratch so uo ft ++ [o]) !! (length h + 2) = Some (OArray ft)).
      { intros so uo ft o. rewrite lookup_app_r by lia.
        replace (length h + 2 - length h) with 2 by lia. reflexivity. }
      unfold view_transactions, view_array. rewrite Hcell.
      cbn [mbind option_bind].
      unfold kept_of. fold P. rewrite <- list_fmap_compose.
      apply mapM_fmap_Forall_Some.
      apply Forall_forall. intros t [_ Ht]%list_elem_of_filter.
      rewrite Forall_forall in Hviews.
      apply (view_transaction_old h _ (VRef (tx_ref t)) t), Hviews, Ht. }
    pose proof (filterWalletTransactions_observe toAddress _ _ _ network _ A HT'
                  (view_addresses_old _ _ _ _ HA)) as Hagain.
    rewrite (every_output_has_script_filter P T Hscripts) in Hagain.
    destruct (filtered_lists A network T) as (Hk & Hs & Hu).
    fold P in Hk, Hs, Hu. rewrite Hk, Hs, Hu in Hagain. exact Hagain.
Qed.

(** X5.  The three lists agree: a transaction of [T] is among the returned
    [transactions] exactly when one of its inputs is among [spentOutputs] or
    one of its outputs among [unspentOutputs]. *)
Theorem filterWalletTransactions_lists_agree
    (h : Heap) transactions addressList network T A :
  view_transactions h transactions = Some T ->
  view_addresses h addressList = Some A ->
  every_output_has_script T = true ->
  exists m,
    observe (filterWalletTransactions toAddress transactions addressList network h)
    = Normal (Some m)
    /\ forall t, t ∈ T ->
         (VRef (tx_ref t) ∈ m_transactions m
          <-> (exists x, x ∈ tx_inputs t /\ VRef x.1 ∈ m_spentOutputs m)
              \/ (exists x, x ∈ tx_outputs t /\ VRef x.1 ∈ m_unspentOutputs m)).
Proof.
  intros HT HA Hscripts. eexists. split.
  { rewrite (filterWalletTransactions_observe toAddress h _ _ network T A HT HA),
      Hscripts. reflexivity. }
  cbn. intros t Ht.
  apply view_transactions_Some in HT as (tl & -> & _ & Hin & Hviews).
  rewrite Forall_forall in Hin, Hviews.
  assert (Hkept : VRef (tx_ref t) ∈ VRef <$> kept_of toAddress A network T
                  <-> Is_true (is_wallet_tx toAddress A network t)).
  { rewrite list_elem_of_fmap. split.
    - intros (l & [= Hl] & (t' & Ht' & Href & Hw)%elem_of_kept_of).
      pose proof (Hviews t Ht) as Hv. pose proof (Hviews t' Ht') as Hv'.
      rewrite Href, <- Hl, Hv in Hv'. now injection Hv' as <-.
    - intros Hw. exists (tx_ref t). split; [reflexivity|].
      apply elem_of_kept_of. eauto. }
  rewrite Hkept, is_wallet_tx_spec, !Exists_exists.
  split; (intros [(x & Hx & H)|(x & Hx & H)]; [left|right]; exists x;
          (split; [exact Hx|])).
  - apply list_elem_of_fmap. exists x.1. split; [reflexivity|].
    apply elem_of_spent_of. eauto 10.
  - apply list_elem_of_fmap. exists x.1. split; [reflexivity|].
    apply elem_of_unspent_of. eauto 10.
  - apply list_elem_of_fmap in H as (l & [= Hl] & H).
    apply elem_of_spent_of in H as (t' & y & Ht' & Hy & Hyl & Hown).
    pose proof (tx_in_input h t x (Hin t Ht) Hx) as Hcell.
    pose proof (tx_in_input h t' y (Hin t' Ht') Hy) as Hcell'.
    rewrite Hyl, <- Hl, Hcell in Hcell'. injection Hcell' as Hs.
    unfold owned in *. now rewrite Hs.
  - apply list_elem_of_fmap in H as (l & [= Hl] & H).
    apply elem_of_unspent_of in H as (t' & y & Ht' & Hy & Hyl & Hown).
    pose proof (tx_in_output h t x (Hin t Ht) Hx) as Hcell.
    pose proof (tx_in_output h t' y (Hin t' Ht') Hy) as Hcell'.
    rewrite Hyl, <- Hl, Hcell in Hcell'. injection Hcell' as Hs.
    unfold owned in *. now rewrite Hs.
Qed.

(** X6.  The returned object and its three arrays are new objects: none of
    them is an object of the store the call found (the argument arrays
    among them), and the three arrays are three different objects. *)
Theorem filterWalletTransactions_fresh_result
    (h h' : Heap) transactions addressList network T A r :
  view_transactions h transactions = Some T ->
  view_addresses h addressList = Some A ->
  filterWalletTransactions toAddress transactions addressList network h
  = (Normal r, h') ->
  exists lr lt ls lu,
    r = VRef lr
    /\ h' !! lr = Some (OMatch (VRef lt) (VRef ls) (VRef lu))
    /\ Forall (fun l => h !! l = None) [lr; lt; ls; lu]
    /\ NoDup [lr; lt; ls; lu].
Proof.
  intros (tl & -> & Htl & Hin & _)%view_transactions_Some
         (al & -> & Hal)%view_addresses_Some Hrun.
  pose proof (filterWalletTransactions_run toAddress h tl al network T A Htl Hin Hal)
    as Hrun'.
  destruct (every_output_has_script T).
  2:{ destruct Hrun' as [ext Hrun']. rewrite Hrun' in Hrun. discriminate. }
  rewrite Hrun' in Hrun. injection Hrun as <- <-.
  exists (length h + 3), (length h + 2), (length h), (length h + 1).
  split; [reflexivity|]. split; [|split].
  - unfold scratch. rewrite lookup_app_r by lia.
    replace (length h + 3 - length h) with 3 by lia. reflexivity.
  - repeat constructor; apply lookup_ge_None; lia.
  - apply (NoDup_fmap_1 (fun l => l - length h)). cbn.
    replace (length h + 3 - length h) with 3 by lia.
    replace (length h + 2 - length h) with 2 by lia.
    replace (length h + 1 - length h) with 1 by lia.
    rewrite Nat.sub_diag. apply (bool_decide_unpack _). reflexivity.
Qed.

End MatcherMore.

(** The coinbase transaction alone: nothing of it belongs to the wallet. *)
Lemma filterWalletTransactions_nothing_to_match_witness :
  observe (filterWalletTransactions sample_toAddress split_second
             sample_addressList "testnet" split_heap)
  = Normal (Some {| m_transactions := []; m_spentOutputs := [];
                    m_unspentOutputs := [] |}).
Proof.
  apply (filterWalletTransactions_nothing_to_match sample_toAddress split_heap
           split_second sample_addressList "testnet" [sample_coinbase] sample_A
           eq_refl eq_refl eq_refl).
  right. repeat constructor.
Defined.

(** The sample transactions against the address list ["testnet:aa"] and
    against the longer sample list. *)
Lemma filterWalletTransactions_monotone_witness :
  exists m1 m2,
    observe (filterWalletTransactions sample_toAddress sample_transactions
               split_addressList "testnet" split_heap) = Normal (Some m1)
    /\ observe (filterWalletTransactions sample_toAddress sample_transactions
                  sample_addressList "testnet" split_heap) = Normal (Some m2)
    /\ m_unspentOutputs m1 `sublist_of` m_unspentOutputs m2.
Proof.
  destruct (filterWalletTransactions_monotone sample_toAddress split_heap
              sample_transactions split_addressList sample_addressList "testnet"
              sample_T ["testnet:aa"] sample_A eq_refl eq_refl eq_refl eq_refl)
    as (m1 & m2 & H1 & H2 & _ & _ & Hsub).
  - intros a ->%list_elem_of_singleton. constructor.
  - exists m1, m2. auto.
Defined.

(** The sample batch, cut into the payment and the coinbase transaction. *)
Lemma filterWalletTransactions_batches_witness :
  exists m1 m2,
    observe (filterWalletTransactions sample_toAddress split_first
               sample_addressList "testnet" split_heap) = Normal (Some m1)
    /\ observe (filterWalletTransactions sample_toAddress split_second
                  sample_addressList "testnet" split_heap) = Normal (Some m2)
    /\ observe (filterWalletTransactions sample_toAddress sample_transactions
                  sample_addressList "testnet" split_heap)
       = Normal (Some
           {| m_transactions := m_transactions m1 ++ m_transactions m2;
              m_spentOutputs := m_spentOutputs m1 ++ m_spentOutputs m2;
              m_unspentOutputs := m_unspentOutputs m1 ++ m_unspentOutputs m2 |}).
Proof.
  exact (filterWalletTransactions_batches sample_toAddress split_heap
           sample_transactions split_first split_second sample_addressList
           "testnet" [sample_payment] [sample_coinbase] sample_A
           eq_refl eq_refl eq_refl eq_refl eq_refl).
Defined.

(** Filtering what the run on the sample store returned. *)
Lemma filterWalletTransactions_idempotent_witness :
  exists kept m,
    match_transactions
      (final (filterWalletTransactions sample_toAddress sample_transactions
                sample_addressList "testnet" sample_heap)) (VRef 17)
    = Some kept
    /\ view_match
         (final (filterWalletTransactions sample_toAddress sample_transactions
                   sample_addressList "testnet" sample_heap)) (VRef 17)
       = Some m
    /\ observe
         (filterWalletTransactions sample_toAddress kept sample_addressList
            "testnet"
            (final (filterWalletTransactions sample_toAddress sample_transactions
                      sample_addressList "testnet" sample_heap)))
       = Normal (Some m).
Proof.
  exact (filterWalletTransactions_idempotent sample_toAddress sample_heap _
           sample_transactions sample_addressList "testnet" sample_T sample_A
           (VRef 17) eq_refl eq_refl eq_refl).
Defined.

(** The payment of the sample store is retained, and its wallet input is
    spent. *)
Lemma filterWalletTransactions_lists_agree_witness :
  exists m,
    observe (filterWalletTransactions sample_toAddress sample_transactions
               sample_addressList "testnet" sample_heap) = Normal (Some m)
    /\ (VRef 6 ∈ m_transactions m
        <-> (exists x, x ∈ tx_inputs sample_payment /\ VRef x.1 ∈ m_spentOutputs m)
            \/ (exists x, x ∈ tx_outputs sample_payment
                          /\ VRef x.1 ∈ m_unspentOutputs m)).
Proof.
  destruct (filterWalletTransactions_lists_agree sample_toAddress sample_heap
              sample_transactions sample_addressList "testnet" sample_T sample_A
              eq_refl eq_refl eq_refl) as (m & Hrun & Hagree).
  exists m. split; [exact Hrun|].
  apply (Hagree sample_payment). constructor.
Defined.

(** The run on the sample store of 14 cells returns cell 17, with its arrays
    in cells 16, 14 and 15. *)
Lemma filterWalletTransactions_fresh_result_witness :
  exists lr lt ls lu,
    VRef 17 = VRef lr
    /\ final (filterWalletTransactions sample_toAddress sample_transactions
                sample_addressList "testnet" sample_heap) !! lr
       = Some (OMatch (VRef lt) (VRef ls) (VRef lu))
    /\ Forall (fun l => sample_heap !! l = None) [lr; lt; ls; lu]
    /\ NoDup [lr; lt; ls; lu].
Proof.
  exact (filterWalletTransactions_fresh_result sample_toAddress sample_heap _
           sample_transactions sample_addressList "testnet" sample_T sample_A
           (VRef 17) eq_refl eq_refl eq_refl).
Defined.

(** ** More on the lifecycle *)

(** X7.  Without a height to skip to (no sync options in the store, no
    [skipSynchronizationBeforeHeight] among them, or 0), [onStart] asks
    nothing of the transport and writes nothing: it is the historical sync,
    called in the world [onStart] found, and awaited. *)
Theorem onStart_without_skip
    (startHistoricalSync : option string -> World -> Promise unit * World)
    (world : World) st :
  storage (self world) = Some st ->
  syncOptions (store st) ≫= skipSynchronizationBeforeHeight = None
  \/ syncOptions (store st) ≫= skipSynchronizationBeforeHeight = Some 0%N ->
  onStart startHistoricalSync world
  = (let* historicalSync := call (startHistoricalSync (network (self world))) in
     await historicalSync) world.
Proof.
  intros Hst Hskip. unfold onStart, bind at 1, member. rewrite Hst.
  destruct Hskip as [-> | ->]; reflexivity.
Qed.

Lemma onStart_without_skip_witness :
  onStart failing (sample_world None)
  = (Thrown (Failure "merkle proof mismatch"),
     {| self := sample_worker None; calls := [CallSubscribe] |}).
Proof.
  exact (onStart_without_skip failing (sample_world None) _ eq_refl
           (or_introl eq_refl)).
Defined.

(** X8.  When the header lookup does not deliver (the promise of
    [getBlockHeaderByHeight] is rejected, or never settles), [onStart] ends
    with that rejection (or never returns): the worker and its checkpoint
    are as they were, the transport has been asked for the header and
    nothing else, and the historical sync is not called, whatever it is. *)
Theorem onStart_header_lookup_fails
    (startHistoricalSync : option string -> World -> Promise unit * World)
    (world : World) st tr height :
  storage (self world) = Some st ->
  syncOptions (store st) ≫= skipSynchronizationBeforeHeight = Some height ->
  height <> 0%N ->
  transport (self world) = Some tr ->
  (forall header, getBlockHeaderByHeight tr height <> Fulfilled header) ->
  onStart startHistoricalSync world
  = (match getBlockHeaderByHeight tr height with
     | Rejected e => Thrown e
     | _ => Suspended
     end,
     {| self := self world;
        calls := calls world ++ [CallGetBlockHeaderByHeight height] |}).
Proof.
  intros Hst Hskip Hne Htr Hfail.
  unfold onStart, bind, member, record, await.
  rewrite Hst, Hskip. apply N.eqb_neq in Hne. rewrite Hne, Htr.
  destruct (getBlockHeaderByHeight tr height) as [header|e|]; try reflexivity.
  now destruct (Hfail header).
Qed.

Lemma onStart_header_lookup_fails_witness :
  onStart idle (sample_world (Some 7%N))
  = (Thrown (Failure "not found"),
     {| self := sample_worker (Some 7%N);
        calls := [CallGetBlockHeaderByHeight 7] |}).
Proof.
  exact (onStart_header_lookup_fails idle (sample_world (Some 7%N)) _
           sample_transport 7%N eq_refl eq_refl ltac:(discriminate) eq_refl
           ltac:(discriminate)).
Defined.

(** X9.  Stopping twice is stopping once: a second [onStop] changes nothing
    and calls nothing, so a stream is cancelled once however often the
    worker is stopped. *)
Theorem onStop_idempotent (world : World) :
  onStop (final (onStop world)) = (Normal tt, final (onStop world)).
Proof.
  unfold onStop, bind, assign, this, record, ret.
  cbn [fst snd self calls with_syncIncomingTransactions stream].
  destruct (stream (self world)) as [s|] eqn:Hs; cbn.
  - reflexivity.
  - rewrite Hs. reflexivity.
Qed.

(** X10.  [execute] and then [onStop]: the stream the incoming sync has set
    up by the time it hands back its promise is cancelled, once; the promise
    stays in [incomingSyncPromise], neither awaited nor cleared. *)
Theorem execute_then_onStop
    (startIncomingSync : World -> Promise unit * World)
    (world world1 : World) (incomingSync : Promise unit) :
  startIncomingSync
    {| self := with_syncIncomingTransactions true (self world);
       calls := calls world |}
  = (incomingSync, world1) ->
  let stopped := final (onStop (final (execute startIncomingSync world))) in
  completion (onStop (final (execute startIncomingSync world))) = Normal tt
  /\ incomingSyncPromise (self stopped) = Some incomingSync
  /\ syncIncomingTransactions (self stopped) = false
  /\ stream (self stopped) = None
  /\ calls stopped
     = calls world1
         ++ match stream (self world1) with
            | Some s => [CallCancel s]
            | None => []
            end.
Proof.
  intros Hcall.
  assert (Hexecute :
    execute startIncomingSync world
    = (Normal tt,
       {| self := with_incomingSyncPromise (Some incomingSync) (self world1);
          calls := calls world1 |})).
  { unfold execute, bind, assign, call. cbn [fst snd self calls].
    now rewrite Hcall. }
  rewrite Hexecute. cbn [final snd].
  unfold onStop, bind, assign, this, record, ret.
  cbn [fst snd self calls with_syncIncomingTransactions
       with_incomingSyncPromise stream].
  destruct (stream (self world1)) as [s|] eqn:Hs; cbn.
  - repeat split.
  - rewrite app_nil_r. repeat split. exact Hs.
Qed.

Lemma execute_then_onStop_witness :
  incomingSyncPromise
    (self (final (onStop (final (execute endless (sample_world None))))))
  = Some Pending
  /\ calls (final (onStop (final (execute endless (sample_world None)))))
     = [CallSubscribe; CallCancel (StreamHandle 2)].
Proof.
  destruct (execute_then_onStop endless (sample_world None) _ _ eq_refl)
    as (_ & Hpromise & _ & _ & Hcalls).
  split; [exact Hpromise|exact Hcalls].
Defined.

(** ** More on the constructor *)

(** X11.  Every option of the caller reaches the base class, and every
    default the caller did not name stays: under any key, the merged
    options hold the caller's value if the options have the key, and else
    the default, if there is one. *)
Theorem constructor_props (options : option (gmap string JSValue)) (key : string) :
  props (constructor options) !! key
  = match options ≫= (fun o => o !! key) with
    | Some value => Some value
    | None => defaults !! key
    end.
Proof.
  unfold constructor, Worker_super, spread. cbn [props
    with_incomingSyncPromise with_stream with_syncIncomingTransactions].
  generalize defaults. intros d. rewrite lookup_union.
  destruct options as [o|]; cbn.
  - destruct (o !! key), (d !! key); reflexivity.
  - rewrite lookup_empty. destruct (d !! key); reflexivity.
Qed.

Example constructor_props_name :
  props (constructor (Some {[ "name" := JString "other" ]})) !! "name"
  = Some (JString "other")
  /\ props (constructor (Some {[ "name" := JString "other" ]})) !! "executeOnStart"
     = Some (JBoolean true)
  /\ props (constructor (Some {[ "name" := JString "other" ]})) !! "unknown" = None.
Proof. repeat split; reflexivity. Qed.
